(** * Abstract problem-solving framework: pattern store, matching and
    structural feature detection

    A shallow embedding of [src/core.py], [src/store.py] and
    [src/mapping.py].

    - Python [str] is [string] (a UTF-8 byte string: the byte-wise order of
      [String.leb] is the code-point order Python sorts by).
    - Python [set] of strings is [gset string]; only membership, size and
      the sorted listing of a set are ever observed by the code.
    - Python [dict] is [PyDict.t]: an association list in insertion order
      with one entry per key.
    - Python [float] is IEEE 754 binary64, given by [SpecFloat] at
      precision 53 and maximal exponent 1024.
    - Values of type [Any] and decoded JSON documents are [json].
    - An exception is an [inl] carrying the error; mutation of the store or
      of the traversal sets is explicit state passing. *)

From Stdlib Require Import ZArith String SpecFloat PrimFloat FloatOps Uint63.
From stdpp Require Import base list strings gmap relations sorting pretty.

Local Open Scope string_scope.
Local Open Scope list_scope.
Local Open Scope nat_scope.
Set Warnings "-register-all".

(** ** Python dictionaries *)

Module PyDict.

Definition t (V : Type) : Type := list (string * V).

Definition empty {V} : t V := [].

(** [d.get(k)] *)
Fixpoint get {V} (k : string) (d : t V) : option V :=
  match d with
  | [] => None
  | (k', v) :: d' => if decide (k = k') then Some v else get k d'
  end.

(** [d[k] = v]: an existing key keeps its position, a new key goes last. *)
Fixpoint setitem {V} (k : string) (v : V) (d : t V) : t V :=
  match d with
  | [] => [(k, v)]
  | (k', v') :: d' =>
      if decide (k = k') then (k, v) :: d' else (k', v') :: setitem k v d'
  end.

(** [d.pop(k, None)]: the removed value, if any, and the remaining dict. *)
Fixpoint pop {V} (k : string) (d : t V) : option V * t V :=
  match d with
  | [] => (None, [])
  | (k', v) :: d' =>
      if decide (k = k') then (Some v, d')
      else let '(r, d'') := pop k d' in (r, (k', v) :: d'')
  end.

Definition keys {V} (d : t V) : list string := d.*1.
Definition values {V} (d : t V) : list V := d.*2.
Definition items {V} (d : t V) : list (string * V) := d.

(** The invariant of a dictionary: no key occurs twice. *)
Definition wf {V} (d : t V) : Prop := NoDup (keys d).

End PyDict.

(** ** JSON values, also the values of [Any]-typed property bags *)

Inductive json : Type :=
| JNull
| JBool (b : bool)
| JInt (n : Z)
| JFloat (f : spec_float)
| JStr (s : string)
| JArr (l : list json)
| JObj (kvs : list (string * json)).

(** ** core.py: the data model

    Each enumeration comes with the [value] of its members and the list of
    its [members] in declaration order. *)

Module Entity.
Record t := mk { id : string; type : string; properties : PyDict.t json }.
End Entity.

Module Relation.
Record t := mk {
  source : string; target : string; type : string;
  properties : PyDict.t json }.
End Relation.

Module Structure.
Record t := mk { entities : list Entity.t; relations : list Relation.t }.
End Structure.

Module ConstraintType.
Inductive t := INVARIANT | PRECONDITION | BOUNDARY.
Definition value (c : t) : string :=
  match c with
  | INVARIANT => "invariant"
  | PRECONDITION => "precondition"
  | BOUNDARY => "boundary"
  end.
Definition members : list t := [INVARIANT; PRECONDITION; BOUNDARY].
End ConstraintType.

Module Constraint.
Record t := mk { predicate : string; over : list string; type : ConstraintType.t }.
End Constraint.

Module GoalType.
Inductive t := FIND | TRANSFORM | PROVE | OPTIMIZE | CONSTRUCT.
Definition value (g : t) : string :=
  match g with
  | FIND => "find"
  | TRANSFORM => "transform"
  | PROVE => "prove"
  | OPTIMIZE => "optimize"
  | CONSTRUCT => "construct"
  end.
Definition members : list t := [FIND; TRANSFORM; PROVE; OPTIMIZE; CONSTRUCT].
End GoalType.

Module Goal.
Record t := mk { type : GoalType.t; target : string; predicate : string }.
End Goal.

Module Problem.
Record t := mk {
  id : string;
  name : string;
  structure : Structure.t;
  constraints : list Constraint.t;
  goal : option Goal.t;
  tags : list string }.
End Problem.

Module Operation.
Inductive t :=
| DECOMPOSE | COMPOSE | TRANSFORM | REDUCE | SEARCH
| FIX | DUALIZE | LIFT | PROJECT | CLASSIFY.
Definition value (o : t) : string :=
  match o with
  | DECOMPOSE => "decompose"
  | COMPOSE => "compose"
  | TRANSFORM => "transform"
  | REDUCE => "reduce"
  | SEARCH => "search"
  | FIX => "fix"
  | DUALIZE => "dualize"
  | LIFT => "lift"
  | PROJECT => "project"
  | CLASSIFY => "classify"
  end.
Definition members : list t :=
  [DECOMPOSE; COMPOSE; TRANSFORM; REDUCE; SEARCH;
   FIX; DUALIZE; LIFT; PROJECT; CLASSIFY].
End Operation.

Module Step.
Record t := mk {
  operation : Operation.t;
  args : PyDict.t json;
  binds : option string;
  rationale : string }.
End Step.

Module CompositionType.
Inductive t := SEQUENTIAL | PARALLEL | CONDITIONAL | ITERATIVE.
Definition value (c : t) : string :=
  match c with
  | SEQUENTIAL => "sequential"
  | PARALLEL => "parallel"
  | CONDITIONAL => "conditional"
  | ITERATIVE => "iterative"
  end.
Definition members : list t := [SEQUENTIAL; PARALLEL; CONDITIONAL; ITERATIVE].
End CompositionType.

Module Transformation.
Record t := mk { steps : list Step.t; composition_type : CompositionType.t }.
End Transformation.

Module Postcondition.
Record t := mk { predicate : string; guarantees : string }.
End Postcondition.

Module Solution.
Record t := mk {
  id : string;
  name : string;
  preconditions : list string;
  transformation : Transformation.t;
  postconditions : list Postcondition.t;
  metadata : PyDict.t json }.
End Solution.

Module Instantiation.
Record t := mk {
  domain : string;
  concrete_problem : string;
  concrete_solution : string;
  mapping_notes : string }.
End Instantiation.

Module Pattern.
Record t := mk {
  id : string;
  name : string;
  description : string;
  problem : Problem.t;
  solution : Solution.t;
  instantiations : list Instantiation.t;
  related_patterns : list string;
  tags : list string }.
End Pattern.

(** ** core.py: the structural feature detector *)

(** The traversal sets [visited] and [in_stack] that [dfs] mutates. *)
Record dfs_state := DfsState { visited : gset string; in_stack : gset string }.

(** [adj = {e.id: [] for e in self.entities}] *)
Definition adj_init (es : list Entity.t) : gmap string (list string) :=
  foldl (λ adj e, <[Entity.id e := []]> adj) ∅ es.

(** [adj.setdefault(r.source, []).append(r.target)] *)
Definition adj_add (adj : gmap string (list string)) (r : Relation.t)
  : gmap string (list string) :=
  <[Relation.source r := default [] (adj !! Relation.source r) ++ [Relation.target r]]> adj.

Definition build_adj (s : Structure.t) : gmap string (list string) :=
  foldl adj_add (adj_init (Structure.entities s)) (Structure.relations s).

(** [adj.get(node, [])] *)
Definition adj_get (adj : gmap string (list string)) (node : string) : list string :=
  default [] (adj !! node).

(** The [for neighbor in adj.get(node, [])] loop of [dfs], followed by
    [in_stack.discard(node); return False].  [rec] is the recursive call. *)
Fixpoint dfs_neighbors (rec : string → dfs_state → option (bool * dfs_state))
  (node : string) (ns : list string) (st : dfs_state) : option (bool * dfs_state) :=
  match ns with
  | [] => Some (false, DfsState (visited st) (in_stack st ∖ {[node]}))
  | neighbor :: ns' =>
      if decide (neighbor ∈ in_stack st) then Some (true, st)
      else if decide (neighbor ∉ visited st) then
        match rec neighbor st with
        | None => None
        | Some (true, st') => Some (true, st')
        | Some (false, st') => dfs_neighbors rec node ns' st'
        end
      else dfs_neighbors rec node ns' st
  end.

(** [dfs(node)].  Every nested call takes a frame of the interpreter, which
    allows [sys.getrecursionlimit()] of them, 1000 unless changed: [fuel] is
    the number of nested calls still allowed, and [None] is the
    [RecursionError] raised when it is used up. *)
Fixpoint dfs (fuel : nat) (adj : gmap string (list string)) (node : string)
  (st : dfs_state) : option (bool * dfs_state) :=
  match fuel with
  | O => None
  | S fuel' =>
      dfs_neighbors (dfs fuel' adj) node (adj_get adj node)
        (DfsState ({[node]} ∪ visited st) ({[node]} ∪ in_stack st))
  end.

(** [any(dfs(e.id) for e in self.entities if e.id not in visited)]: the
    filter is evaluated lazily, against the [visited] set of the moment, and
    [any] stops at the first [True]. *)
Fixpoint dfs_roots (fuel : nat) (adj : gmap string (list string))
  (es : list Entity.t) (st : dfs_state) : option bool :=
  match es with
  | [] => Some false
  | e :: es' =>
      if decide (Entity.id e ∉ visited st) then
        match dfs fuel adj (Entity.id e) st with
        | None => None
        | Some (true, _) => Some true
        | Some (false, st') => dfs_roots fuel adj es' st'
        end
      else dfs_roots fuel adj es' st
  end.

Definition _check_cycle_fuel (fuel : nat) (s : Structure.t) : option bool :=
  match Structure.relations s with
  | [] => Some false
  | _ :: _ => dfs_roots fuel (build_adj s) (Structure.entities s) (DfsState ∅ ∅)
  end.

Definition _check_recursive (s : Structure.t) : bool :=
  let types := Entity.type <$> Structure.entities s in
  bool_decide (length types ≠ size (list_to_set types : gset string)).

Definition _check_linear_chain (s : Structure.t) : bool :=
  let ordered :=
    filter (λ r, Relation.type r = "ordered_before") (Structure.relations s) in
  bool_decide (Z.of_nat (length ordered) = (Z.of_nat (length (Structure.entities s)) - 1)%Z).

Definition _check_tree (s : Structure.t) : bool :=
  let contains :=
    filter (λ r, Relation.type r = "contains") (Structure.relations s) in
  bool_decide (Z.of_nat (length contains) = (Z.of_nat (length (Structure.entities s)) - 1)%Z).

Definition entity_types (s : Structure.t) : gset string :=
  list_to_set (Entity.type <$> Structure.entities s).

Definition _check_bipartite (s : Structure.t) : bool :=
  bool_decide (size (entity_types s) = 2).

(** The dispatch table of [has_feature]; a check runs only once selected. *)
Definition feature_checks (fuel : nat) : PyDict.t (Structure.t → option bool) :=
  [ ("recursive_decomposability", λ s, Some (_check_recursive s));
    ("linear_chain", λ s, Some (_check_linear_chain s));
    ("tree", λ s, Some (_check_tree s));
    ("cycle", _check_cycle_fuel fuel);
    ("bipartite", λ s, Some (_check_bipartite s)) ].

Definition has_feature_fuel (fuel : nat) (s : Structure.t) (feature : string)
  : option bool :=
  match PyDict.get feature (feature_checks fuel) with
  | Some check => check s
  | None => Some false
  end.

(** Nested [dfs] calls each mark a new node, and every node is an entity id
    or the target of a relation: this many calls always suffice (see
    [_check_cycle_fuel_correct]). *)
Definition dfs_depth (s : Structure.t) : nat :=
  length (Structure.entities s) + length (Structure.relations s).

Definition _check_cycle (s : Structure.t) : bool :=
  default false (_check_cycle_fuel (dfs_depth s) s).

Definition has_feature (s : Structure.t) (feature : string) : bool :=
  default false (has_feature_fuel (dfs_depth s) s feature).

Definition feature_names : list string :=
  ["recursive_decomposability"; "linear_chain"; "tree"; "cycle"; "bipartite"].

(** [Problem.structural_features] *)
Definition structural_features (p : Problem.t) : list string :=
  filter (λ feat, has_feature (Problem.structure p) feat = true) feature_names.

(** ** Python numbers used by the matcher *)

Module PyFloat.

(** A Python [float]: a binary64 value. *)
Definition t : Type := spec_float.

Definition prec : Z := 53.
Definition emax : Z := 1024.

(** The integer [z] as an exact, not yet rounded, operand. *)
Definition of_int (z : Z) : t :=
  match z with
  | Z0 => S754_zero false
  | Zpos p => S754_finite false p 0
  | Zneg p => S754_finite true p 0
  end.

(** [a / b] on two [int]s: the quotient rounded once, to nearest even. *)
Definition int_truediv (a b : Z) : t := SFdiv prec emax (of_int a) (of_int b).

(** The literal [0.1]: the binary64 value nearest to one tenth. *)
Definition tenth : t := S754_finite false 7205759403792794 (-56).

(** [x < y] and [x >= y] *)
Definition lt (x y : t) : bool := SFltb x y.
Definition ge (x y : t) : bool := SFleb y x.

Definition is_nan (x : t) : bool :=
  match x with S754_nan => true | _ => false end.

End PyFloat.

(** [sorted(X)] for a set of strings. *)
Definition string_le (x y : string) : Prop := String.leb x y = true.

#[global] Instance string_le_dec : RelDecision string_le.
Proof. intros x y. unfold string_le. apply _. Defined.

Definition sorted (X : gset string) : list string :=
  merge_sort string_le (elements X).

(** ** store.py: match results *)

Module MatchResult.
Record t := mk {
  pattern : Pattern.t;
  score : PyFloat.t;
  matched_features : list string;
  unmatched_preconditions : list string }.
End MatchResult.

(** [results.sort(key=lambda r: r.score, reverse=True)].  The sort of a
    Python list is stable, also in reverse, and compares keys with [<]
    only: an element moves behind exactly the elements of strictly greater
    score. *)
Fixpoint insert_by_score (r : MatchResult.t) (l : list MatchResult.t)
  : list MatchResult.t :=
  match l with
  | [] => [r]
  | r' :: l' =>
      if PyFloat.lt (MatchResult.score r) (MatchResult.score r')
      then r' :: insert_by_score r l'
      else r :: l
  end.

Definition sort_by_score_reverse (l : list MatchResult.t) : list MatchResult.t :=
  foldr insert_by_score [] l.

(** [set(problem.structural_features)] updated with [problem.tags] *)
Definition problem_features (problem : Problem.t) : gset string :=
  list_to_set (structural_features problem) ∪ list_to_set (Problem.tags problem).

(** The body of the [for pattern in ...] loop of [match]: the result it
    appends, if any. *)
Definition match_pattern (features : gset string) (threshold : PyFloat.t)
  (pattern : Pattern.t) : option MatchResult.t :=
  let required : gset string :=
    list_to_set (Solution.preconditions (Pattern.solution pattern)) in
  if decide (required = ∅) then
    Some (MatchResult.mk pattern PyFloat.tenth [] [])
  else
    let matched := required ∩ features in
    let unmatched := required ∖ features in
    let score :=
      PyFloat.int_truediv (Z.of_nat (size matched)) (Z.of_nat (size required)) in
    if PyFloat.ge score threshold then
      Some (MatchResult.mk pattern score (sorted matched) (sorted unmatched))
    else None.

(** ** store.py: serialization

    [save] hands a list of records to [json.dumps] and [load] receives the
    document [json.loads] returns; the text between the two is the [json]
    library's and is not modelled: the document is a [json] value.

    Python does not check annotations.  Where the source would build an
    object whose field holds a value of another JSON type than annotated
    (a number as [id], say), the typed records here have no counterpart,
    and decoding stops with [IllTyped]; the other errors are the exceptions
    the source raises. *)

Inductive error :=
| KeyError (key : string)
| TypeError
| AttributeError
| ValueError (v : json)
| IllTyped (field : string).

Definition result (A : Type) : Type := error + A.

#[global] Instance result_ret : MRet result := λ A x, inr x.
#[global] Instance result_bind : MBind result :=
  λ A B f m, match m with inl e => inl e | inr x => f x end.
#[global] Instance result_fmap : FMap result :=
  λ A B f m, match m with inl e => inl e | inr x => inr (f x) end.

Definition raise {A} (e : error) : result A := inl e.

(** [d[key]] *)
Definition subscript (d : json) (key : string) : result json :=
  match d with
  | JObj kvs =>
      match PyDict.get key kvs with
      | Some v => mret v
      | None => raise (KeyError key)
      end
  | _ => raise TypeError
  end.

(** [d.get(key, default)] *)
Definition get_default (d : json) (key : string) (default : json) : result json :=
  match d with
  | JObj kvs => mret (from_option id default (PyDict.get key kvs))
  | _ => raise AttributeError
  end.

(** The elements a [for] loop or a comprehension draws from a value: the
    items of a list, the keys of a dict, the characters of a string (one
    per byte here; each is a string again and fails where a record is
    needed, whatever it holds). *)
Fixpoint characters (s : string) : list json :=
  match s with
  | EmptyString => []
  | String c s' => JStr (String c EmptyString) :: characters s'
  end.

Definition iterate (v : json) : result (list json) :=
  match v with
  | JArr l => mret l
  | JObj kvs => mret (JStr <$> PyDict.keys kvs)
  | JStr s => mret (characters s)
  | _ => raise TypeError
  end.

(** The truth value of [v] in an [if]. *)
Definition truthy (v : json) : bool :=
  match v with
  | JNull => false
  | JBool b => b
  | JInt n => negb (Z.eqb n 0)
  | JFloat (S754_zero _) => false
  | JFloat _ => true
  | JStr s => negb (String.eqb s "")
  | JArr l => negb (bool_decide (l = []))
  | JObj kvs => negb (bool_decide (kvs = []))
  end.

(** The call of a dataclass with the entries of [v] as its keyword
    arguments, the fields being [required] (no default) or [optional]: [v]
    must be a mapping, bring every required field and no unknown one. *)
Definition kwargs (v : json) (required optional : list string)
  : result (PyDict.t json) :=
  match v with
  | JObj kvs =>
      if bool_decide (Forall (λ k, k ∈ required ++ optional) (PyDict.keys kvs))
         && bool_decide (Forall (λ k, k ∈ PyDict.keys kvs) required)
      then mret kvs
      else raise TypeError
  | _ => raise TypeError
  end.

(** [Enum(v)]: the member whose value is [v]. *)
Definition enum_of_value {E} (value : E → string) (members : list E) (v : json)
  : result E :=
  match v with
  | JStr s =>
      match list_find (λ m, value m = s) members with
      | Some (_, m) => mret m
      | None => raise (ValueError v)
      end
  | _ => raise (ValueError v)
  end.

(** Reading a value at its annotated type. *)
Definition as_str (field : string) (v : json) : result string :=
  match v with JStr s => mret s | _ => raise (IllTyped field) end.

Definition as_optional_str (field : string) (v : json) : result (option string) :=
  match v with
  | JNull => mret None
  | JStr s => mret (Some s)
  | _ => raise (IllTyped field)
  end.

Definition as_dict (field : string) (v : json) : result (PyDict.t json) :=
  match v with JObj kvs => mret kvs | _ => raise (IllTyped field) end.

Definition as_str_list (field : string) (v : json) : result (list string) :=
  match v with
  | JArr l => mapM (as_str field) l
  | _ => raise (IllTyped field)
  end.

(** *** [_pattern_to_dict] *)

Definition optional_str_to_json (o : option string) : json :=
  match o with Some s => JStr s | None => JNull end.

Definition str_list_to_json (l : list string) : json := JArr (JStr <$> l).

Definition entity_to_dict (e : Entity.t) : json :=
  JObj [("id", JStr (Entity.id e));
        ("type", JStr (Entity.type e));
        ("properties", JObj (Entity.properties e))].

Definition relation_to_dict (r : Relation.t) : json :=
  JObj [("source", JStr (Relation.source r));
        ("target", JStr (Relation.target r));
        ("type", JStr (Relation.type r));
        ("properties", JObj (Relation.properties r))].

Definition constraint_to_dict (c : Constraint.t) : json :=
  JObj [("predicate", JStr (Constraint.predicate c));
        ("over", str_list_to_json (Constraint.over c));
        ("type", JStr (ConstraintType.value (Constraint.type c)))].

Definition goal_to_dict (g : option Goal.t) : json :=
  match g with
  | Some g =>
      JObj [("type", JStr (GoalType.value (Goal.type g)));
            ("target", JStr (Goal.target g));
            ("predicate", JStr (Goal.predicate g))]
  | None => JNull
  end.

Definition step_to_dict (s : Step.t) : json :=
  JObj [("operation", JStr (Operation.value (Step.operation s)));
        ("args", JObj (Step.args s));
        ("binds", optional_str_to_json (Step.binds s));
        ("rationale", JStr (Step.rationale s))].

Definition postcondition_to_dict (pc : Postcondition.t) : json :=
  JObj [("predicate", JStr (Postcondition.predicate pc));
        ("guarantees", JStr (Postcondition.guarantees pc))].

Definition instantiation_to_dict (i : Instantiation.t) : json :=
  JObj [("domain", JStr (Instantiation.domain i));
        ("concrete_problem", JStr (Instantiation.concrete_problem i));
        ("concrete_solution", JStr (Instantiation.concrete_solution i));
        ("mapping_notes", JStr (Instantiation.mapping_notes i))].

Definition problem_to_dict (p : Problem.t) : json :=
  JObj [("id", JStr (Problem.id p));
        ("name", JStr (Problem.name p));
        ("structure",
          JObj [("entities",
                  JArr (entity_to_dict <$> Structure.entities (Problem.structure p)));
                ("relations",
                  JArr (relation_to_dict <$> Structure.relations (Problem.structure p)))]);
        ("constraints", JArr (constraint_to_dict <$> Problem.constraints p));
        ("goal", goal_to_dict (Problem.goal p));
        ("tags", str_list_to_json (Problem.tags p))].

(** The [metadata] of the solution is not written. *)
Definition solution_to_dict (s : Solution.t) : json :=
  JObj [("id", JStr (Solution.id s));
        ("name", JStr (Solution.name s));
        ("preconditions", str_list_to_json (Solution.preconditions s));
        ("transformation",
          JObj [("steps",
                  JArr (step_to_dict <$> Transformation.steps (Solution.transformation s)));
                ("composition_type",
                  JStr (CompositionType.value
                          (Transformation.composition_type (Solution.transformation s))))]);
        ("postconditions", JArr (postcondition_to_dict <$> Solution.postconditions s))].

Definition _pattern_to_dict (pattern : Pattern.t) : json :=
  JObj [("id", JStr (Pattern.id pattern));
        ("name", JStr (Pattern.name pattern));
        ("description", JStr (Pattern.description pattern));
        ("problem", problem_to_dict (Pattern.problem pattern));
        ("solution", solution_to_dict (Pattern.solution pattern));
        ("instantiations", JArr (instantiation_to_dict <$> Pattern.instantiations pattern));
        ("related_patterns", str_list_to_json (Pattern.related_patterns pattern));
        ("tags", str_list_to_json (Pattern.tags pattern))].

(** *** [_dict_to_pattern] *)

Definition dict_to_entity (e : json) : result Entity.t :=
  kw ← kwargs e ["id"; "type"] ["properties"];
  id ← as_str "id" (default JNull (PyDict.get "id" kw));
  type ← as_str "type" (default JNull (PyDict.get "type" kw));
  properties ← as_dict "properties" (default (JObj []) (PyDict.get "properties" kw));
  mret (Entity.mk id type properties).

Definition dict_to_relation (r : json) : result Relation.t :=
  kw ← kwargs r ["source"; "target"; "type"] ["properties"];
  source ← as_str "source" (default JNull (PyDict.get "source" kw));
  target ← as_str "target" (default JNull (PyDict.get "target" kw));
  type ← as_str "type" (default JNull (PyDict.get "type" kw));
  properties ← as_dict "properties" (default (JObj []) (PyDict.get "properties" kw));
  mret (Relation.mk source target type properties).

Definition dict_to_constraint (c : json) : result Constraint.t :=
  predicate ← subscript c "predicate";
  over ← subscript c "over";
  type ← subscript c "type" ≫= enum_of_value ConstraintType.value ConstraintType.members;
  predicate ← as_str "predicate" predicate;
  over ← as_str_list "over" over;
  mret (Constraint.mk predicate over type).

Definition dict_to_goal (g : json) : result Goal.t :=
  type ← subscript g "type" ≫= enum_of_value GoalType.value GoalType.members;
  target ← subscript g "target";
  predicate ← subscript g "predicate";
  target ← as_str "target" target;
  predicate ← as_str "predicate" predicate;
  mret (Goal.mk type target predicate).

Definition dict_to_step (s : json) : result Step.t :=
  operation ← subscript s "operation" ≫= enum_of_value Operation.value Operation.members;
  args ← get_default s "args" (JObj []);
  binds ← get_default s "binds" JNull;
  rationale ← get_default s "rationale" (JStr "");
  args ← as_dict "args" args;
  binds ← as_optional_str "binds" binds;
  rationale ← as_str "rationale" rationale;
  mret (Step.mk operation args binds rationale).

Definition dict_to_postcondition (pc : json) : result Postcondition.t :=
  predicate ← subscript pc "predicate";
  guarantees ← subscript pc "guarantees";
  predicate ← as_str "predicate" predicate;
  guarantees ← as_str "guarantees" guarantees;
  mret (Postcondition.mk predicate guarantees).

Definition dict_to_instantiation (i : json) : result Instantiation.t :=
  kw ← kwargs i ["domain"; "concrete_problem"; "concrete_solution"] ["mapping_notes"];
  domain ← as_str "domain" (default JNull (PyDict.get "domain" kw));
  concrete_problem ←
    as_str "concrete_problem" (default JNull (PyDict.get "concrete_problem" kw));
  concrete_solution ←
    as_str "concrete_solution" (default JNull (PyDict.get "concrete_solution" kw));
  mapping_notes ←
    as_str "mapping_notes" (default (JStr "") (PyDict.get "mapping_notes" kw));
  mret (Instantiation.mk domain concrete_problem concrete_solution mapping_notes).

(** [[f(x) for x in v]]: the elements are built in order and the first
    exception ends the comprehension. *)
Definition comprehension {A} (f : json → result A) (v : json) : result (list A) :=
  items ← iterate v; mapM f items.

Definition _dict_to_pattern (d : json) : result Pattern.t :=
  prob_d ← subscript d "problem";
  entities ←
    (structure ← subscript prob_d "structure";
     subscript structure "entities") ≫= comprehension dict_to_entity;
  relations ←
    (structure ← subscript prob_d "structure";
     subscript structure "relations") ≫= comprehension dict_to_relation;
  constraints ←
    get_default prob_d "constraints" (JArr []) ≫= comprehension dict_to_constraint;
  goal_v ← get_default prob_d "goal" JNull;
  goal ←
    (if truthy goal_v
     then Some <$> (subscript prob_d "goal" ≫= dict_to_goal)
     else mret None);
  prob_id ← subscript prob_d "id";
  prob_name ← subscript prob_d "name";
  prob_tags ← get_default prob_d "tags" (JArr []);
  prob_id ← as_str "id" prob_id;
  prob_name ← as_str "name" prob_name;
  prob_tags ← as_str_list "tags" prob_tags;
  let problem :=
    Problem.mk prob_id prob_name (Structure.mk entities relations)
      constraints goal prob_tags in
  sol_d ← subscript d "solution";
  steps ←
    (transformation ← subscript sol_d "transformation";
     subscript transformation "steps") ≫= comprehension dict_to_step;
  composition_type ←
    (transformation ← subscript sol_d "transformation";
     get_default transformation "composition_type" (JStr "sequential"))
    ≫= enum_of_value CompositionType.value CompositionType.members;
  postconditions ←
    get_default sol_d "postconditions" (JArr [])
    ≫= comprehension dict_to_postcondition;
  sol_id ← subscript sol_d "id";
  sol_name ← subscript sol_d "name";
  preconditions ← get_default sol_d "preconditions" (JArr []);
  sol_id ← as_str "id" sol_id;
  sol_name ← as_str "name" sol_name;
  preconditions ← as_str_list "preconditions" preconditions;
  let solution :=
    Solution.mk sol_id sol_name preconditions
      (Transformation.mk steps composition_type) postconditions [] in
  instantiations ←
    get_default d "instantiations" (JArr []) ≫= comprehension dict_to_instantiation;
  id ← subscript d "id";
  name ← subscript d "name";
  description ← subscript d "description";
  related_patterns ← get_default d "related_patterns" (JArr []);
  tags ← get_default d "tags" (JArr []);
  id ← as_str "id" id;
  name ← as_str "name" name;
  description ← as_str "description" description;
  related_patterns ← as_str_list "related_patterns" related_patterns;
  tags ← as_str_list "tags" tags;
  mret (Pattern.mk id name description problem solution instantiations
          related_patterns tags).

(** ** store.py: the pattern store *)

Module PatternStore.

(** The state of a store: its [_patterns] dictionary. *)
Definition t : Type := PyDict.t Pattern.t.

Definition init : t := PyDict.empty.

Definition add (pattern : Pattern.t) (self : t) : t :=
  PyDict.setitem (Pattern.id pattern) pattern self.

Definition get (pattern_id : string) (self : t) : option Pattern.t :=
  PyDict.get pattern_id self.

Definition remove (pattern_id : string) (self : t) : bool * t :=
  let '(r, d) := PyDict.pop pattern_id self in (bool_decide (is_Some r), d).

Definition all_patterns (self : t) : list Pattern.t := PyDict.values self.

Definition match_ (self : t) (problem : Problem.t) (threshold : PyFloat.t)
  : list MatchResult.t :=
  let features := problem_features problem in
  sort_by_score_reverse (omap (match_pattern features threshold) (all_patterns self)).

Definition search_by_tag (tags : list string) (self : t) : list Pattern.t :=
  let tag_set : gset string := list_to_set tags in
  filter (λ p, tag_set ⊆ (list_to_set (Pattern.tags p) : gset string)) (all_patterns self).

Definition domains_covered (p : Pattern.t) : gset string :=
  list_to_set (Instantiation.domain <$> Pattern.instantiations p).

Definition search_by_domain (domain : string) (self : t) : list Pattern.t :=
  filter (λ p, domain ∈ domains_covered p) (all_patterns self).

(** [save]: the list of records written to the file. *)
Definition save (self : t) : json := JArr (_pattern_to_dict <$> all_patterns self).

(** The [for item in data] loop of [load]: each record is decoded and
    stored before the next one is looked at.  The result is the store as
    the loop leaves it and the exception that ended it, if any. *)
Fixpoint load_items (items : list json) (self : t) : t * option error :=
  match items with
  | [] => (self, None)
  | item :: items' =>
      match _dict_to_pattern item with
      | inl e => (self, Some e)
      | inr pattern =>
          load_items items' (PyDict.setitem (Pattern.id pattern) pattern self)
      end
  end.

(** [load], from the document read. *)
Definition load (data : json) (self : t) : t * option error :=
  match iterate data with
  | inl e => (self, Some e)
  | inr items => load_items items self
  end.

Definition len (self : t) : nat := length self.

(** Every key is the identifier of the pattern stored under it, and no key
    occurs twice: what [add] and [load] maintain from [init] on. *)
Definition wf (self : t) : Prop :=
  PyDict.wf self ∧ Forall (λ kp, kp.1 = Pattern.id kp.2) self.

End PatternStore.

(** ** mapping.py: domain mappings and instantiation *)

Module DomainMapping.

Record t := mk {
  domain : string;
  type_map : PyDict.t string;
  operation_map : PyDict.t string;
  axioms : PyDict.t json }.

(** [{v: k for k, v in d.items()}]: the entries are written in order, a
    later one overwriting an earlier one with the same value [v]. *)
Definition invert (d : PyDict.t string) : PyDict.t string :=
  foldl (λ inv kv, PyDict.setitem kv.2 kv.1 inv) PyDict.empty (PyDict.items d).

Definition inverse_type_map (self : t) : PyDict.t string := invert (type_map self).

Definition inverse_operation_map (self : t) : PyDict.t string :=
  invert (operation_map self).

End DomainMapping.

(** One concrete step of [instantiate]: the dict it appends. *)
Definition instantiate_step (inv_ops : PyDict.t string) (domain : string)
  (step : Step.t) : PyDict.t json :=
  let abstract_operation := Operation.value (Step.operation step) in
  let concrete_op := default abstract_operation (PyDict.get abstract_operation inv_ops) in
  [("operation", JStr concrete_op);
   ("abstract_operation", JStr abstract_operation);
   ("args", JObj (Step.args step));
   ("binds", optional_str_to_json (Step.binds step));
   ("rationale", JStr (Step.rationale step));
   ("domain", JStr domain)].

Definition instantiate (solution : Solution.t) (mapping : DomainMapping.t)
  : list (PyDict.t json) :=
  let inv_ops := DomainMapping.inverse_operation_map mapping in
  instantiate_step inv_ops (DomainMapping.domain mapping)
    <$> Transformation.steps (Solution.transformation solution).

(** ** mapping.py: abstraction *)

(** The body of the entity loop of [abstract]: the type label is looked up
    in [type_map], an unmapped label passing through. *)
Definition abstract_entity (type_map : PyDict.t string) (e : json) : result Entity.t :=
  type ← subscript e "type";
  type ← as_str "type" type;
  let abstract_type := default type (PyDict.get type type_map) in
  id ← subscript e "id";
  properties ← get_default e "properties" (JObj []);
  id ← as_str "id" id;
  properties ← as_dict "properties" properties;
  mret (Entity.mk id abstract_type properties).

Definition abstract_relation (type_map : PyDict.t string) (r : json)
  : result Relation.t :=
  type ← subscript r "type";
  type ← as_str "type" type;
  let abstract_type := default type (PyDict.get type type_map) in
  source ← subscript r "source";
  target ← subscript r "target";
  properties ← get_default r "properties" (JObj []);
  source ← as_str "source" source;
  target ← as_str "target" target;
  properties ← as_dict "properties" properties;
  mret (Relation.mk source target abstract_type properties).

Definition abstract_constraint (c : json) : result Constraint.t :=
  predicate ← subscript c "predicate";
  over ← get_default c "over" (JArr []);
  type ← get_default c "type" (JStr "invariant")
         ≫= enum_of_value ConstraintType.value ConstraintType.members;
  predicate ← as_str "predicate" predicate;
  over ← as_str_list "over" over;
  mret (Constraint.mk predicate over type).

(** [key in d], for [d] a dict (as [problem_desc] is once its [get] has
    returned). *)
Definition has_key (d : json) (key : string) : bool :=
  match d with
  | JObj kvs => bool_decide (is_Some (PyDict.get key kvs))
  | _ => false
  end.

Definition abstract (problem_desc : json) (mapping : DomainMapping.t)
  : result Problem.t :=
  let type_map := DomainMapping.type_map mapping in
  entities ←
    get_default problem_desc "entities" (JArr [])
    ≫= comprehension (abstract_entity type_map);
  relations ←
    get_default problem_desc "relations" (JArr [])
    ≫= comprehension (abstract_relation type_map);
  constraints ←
    get_default problem_desc "constraints" (JArr [])
    ≫= comprehension abstract_constraint;
  goal ←
    (if has_key problem_desc "goal"
     then Some <$> (subscript problem_desc "goal" ≫= dict_to_goal)
     else mret None);
  id ← get_default problem_desc "id" (JStr "");
  name ← get_default problem_desc "name" (JStr "");
  tags ← get_default problem_desc "tags" (JArr []);
  id ← as_str "id" id;
  name ← as_str "name" name;
  tags ← as_str_list "tags" tags;
  mret (Problem.mk id name (Structure.mk entities relations) constraints goal tags).

(** ** core.py and store.py: the remaining methods *)

(** [Structure.entity]: the first entity with the identifier, if any. *)
Definition entity (s : Structure.t) (entity_id : string) : option Entity.t :=
  snd <$> list_find (λ e, Entity.id e = entity_id) (Structure.entities s).

(** [Structure.neighbors]: for each relation in turn, its target when it
    leaves [entity_id] and then its source when it enters [entity_id],
    relations of another type than [relation_type] being skipped when a
    type is given. *)
Definition neighbors (s : Structure.t) (entity_id : string)
  (relation_type : option string) : list string :=
  let type_ok (r : Relation.t) : bool :=
    match relation_type with
    | None => true
    | Some t => bool_decide (Relation.type r = t)
    end in
  Structure.relations s ≫= λ r,
    (if bool_decide (Relation.source r = entity_id) && type_ok r
     then [Relation.target r] else [])
    ++ (if bool_decide (Relation.target r = entity_id) && type_ok r
        then [Relation.source r] else []).

(** [Structure.relation_types] *)
Definition relation_types (s : Structure.t) : gset string :=
  list_to_set (Relation.type <$> Structure.relations s).

(** [Solution.matches] *)
Definition matches (self : Solution.t) (problem : Problem.t) : bool :=
  let required : gset string := list_to_set (Solution.preconditions self) in
  bool_decide (required ⊆ problem_features problem).

(** [Pattern.add_instantiation] *)
Definition add_instantiation (inst : Instantiation.t) (self : Pattern.t) : Pattern.t :=
  Pattern.mk (Pattern.id self) (Pattern.name self) (Pattern.description self)
    (Pattern.problem self) (Pattern.solution self)
    (Pattern.instantiations self ++ [inst])
    (Pattern.related_patterns self) (Pattern.tags self).

(** The literal [1.0] and [MatchResult.is_exact], [score == 1.0]. *)
Definition float_1_0 : PyFloat.t := S754_finite false 4503599627370496 (-52).

Definition is_exact (self : MatchResult.t) : bool :=
  SFeqb (MatchResult.score self) float_1_0.

(** * Vocabulary of the properties

    The definitions the statements and proofs below are written with;
    none of them is part of the program. *)

(** ** Graphs and the depth-first search *)

(** The graph searched by [dfs] is the one [adj] describes: an edge from
    [x] to [y] for every occurrence of [y] in the adjacency list of [x]. *)
Definition adj_edge (adj : gmap string (list string)) (x y : string) : Prop :=
  y ∈ adj_get adj x.

(** A node is finished once visited and no longer on the stack. *)
Definition finished (st : dfs_state) (x : string) : Prop :=
  x ∈ visited st ∧ x ∉ in_stack st.

(** The invariant between calls: the stack is visited, the finished nodes
    are closed under edges, and none of them lies on a cycle. *)
Definition dfs_inv (adj : gmap string (list string)) (st : dfs_state) : Prop :=
  in_stack st ⊆ visited st
  ∧ (∀ x y, finished st x → adj_edge adj x y → finished st y)
  ∧ (∀ x, finished st x → ¬ tc (adj_edge adj) x x).

(** What a call of [dfs] on [node] relies on: [node] is new, the nodes
    not yet visited number [fuel] at most, and every node on the stack
    reaches [node]. *)
Definition dfs_pre (adj : gmap string (list string)) (N : gset string)
  (fuel : nat) (node : string) (st : dfs_state) : Prop :=
  (node ∉ visited st) ∧ node ∈ N ∧ visited st ⊆ N
  ∧ size (N ∖ visited st) ≤ fuel
  ∧ dfs_inv adj st
  ∧ (∀ x, x ∈ in_stack st → rtc (adj_edge adj) x node).

Definition reaches_cycle (adj : gmap string (list string)) (node : string) : Prop :=
  ∃ c, rtc (adj_edge adj) node c ∧ tc (adj_edge adj) c c.

(** What a call of [dfs] on [node] ensures: [True] comes with a cycle
    reached from [node]; [False] leaves the stack as it was, [node]
    finished and the invariant in place. *)
Definition dfs_post (adj : gmap string (list string)) (N : gset string)
  (node : string) (st : dfs_state) (r : bool * dfs_state) : Prop :=
  if r.1 then reaches_cycle adj node
  else in_stack r.2 = in_stack st
       ∧ visited st ⊆ visited r.2 ∧ visited r.2 ⊆ N
       ∧ node ∈ visited r.2 ∧ dfs_inv adj r.2.

(** One edge per relation, whatever its type. *)
Definition edge (s : Structure.t) (x y : string) : Prop :=
  ∃ r, r ∈ Structure.relations s ∧ Relation.source r = x ∧ Relation.target r = y.

(** A directed cycle: a node that reaches itself in one step or more. *)
Definition on_cycle (s : Structure.t) (c : string) : Prop := tc (edge s) c c.

Definition has_cycle (s : Structure.t) : Prop := ∃ c, on_cycle s c.

(** A directed cycle that can be reached from the id of an entity. *)
Definition has_cycle_from_entity (s : Structure.t) : Prop :=
  ∃ e c, e ∈ Structure.entities s ∧ rtc (edge s) (Entity.id e) c ∧ on_cycle s c.

(** All identifiers [dfs] can be called on. *)
Definition nodes (s : Structure.t) : gset string :=
  list_to_set (Entity.id <$> Structure.entities s)
  ∪ list_to_set (Relation.target <$> Structure.relations s).

(** A chain of [n + 1] entities [n0], ..., [n<n>] in this order, each
    joined to the next one by an [ordered_before] relation. *)
Definition node_name (i : nat) : string := "n" +:+ pretty i.

Definition chain_entity (i : nat) : Entity.t := Entity.mk (node_name i) "element" [].

Definition chain_relation (i : nat) : Relation.t :=
  Relation.mk (node_name i) (node_name (S i)) "ordered_before" [].

Definition chain (n : nat) : Structure.t :=
  Structure.mk (chain_entity <$> seq 0 (S n)) (chain_relation <$> seq 0 n).

(** ** Scores, stores and sample data *)

(** An order-preserving key for the values that are numbers: class and
    sign first, then exponent and mantissa. *)
Definition float_key (x : PyFloat.t) : Z * Z * Z :=
  match x with
  | S754_zero _ => (0, 0, 0)
  | S754_infinity s => (if s then -2 else 2, 0, 0)
  | S754_nan => (0, 0, 0)
  | S754_finite s m e => if s then (-1, - e, Zneg m) else (1, e, Zpos m)
  end%Z.

Definition lex_le (a b : Z * Z * Z) : Prop :=
  let '(a1, a2, a3) := a in
  let '(b1, b2, b3) := b in
  (a1 < b1 ∨ (a1 = b1 ∧ (a2 < b2 ∨ (a2 = b2 ∧ a3 ≤ b3))))%Z.

Definition lex_lt (a b : Z * Z * Z) : Prop :=
  let '(a1, a2, a3) := a in
  let '(b1, b2, b3) := b in
  (a1 < b1 ∨ (a1 = b1 ∧ (a2 < b2 ∨ (a2 = b2 ∧ a3 < b3))))%Z.

(** The same quotient on the binary64 numbers of the machine, and the
    structural comparison of two values. *)
Definition machine_div (a b : Z) : PyFloat.t :=
  Prim2SF (PrimFloat.div (PrimFloat.of_uint63 (Uint63.of_Z a))
                         (PrimFloat.of_uint63 (Uint63.of_Z b))).

Definition same_float (x y : PyFloat.t) : bool :=
  match x, y with
  | S754_zero s, S754_zero s' => Bool.eqb s s'
  | S754_infinity s, S754_infinity s' => Bool.eqb s s'
  | S754_nan, S754_nan => true
  | S754_finite s m e, S754_finite s' m' e' =>
      Bool.eqb s s' && Pos.eqb m m' && Z.eqb e e'
  | _, _ => false
  end.

Ltac float_cases x y :=
  destruct x as [[]|[]| |[] mx ex], y as [[]|[]| |[] my ey]; cbn;
  try (split; [discriminate|intros (? & ? & ?); first [discriminate|lia]]);
  try (split; [intros _; repeat split; lia|reflexivity]).

Ltac float_finite_cases mx ex my ey :=
  change (Pos.compare_cont Eq mx my) with (Pos.compare mx my);
  destruct (Z.compare_spec ex ey); try destruct (Pos.compare_spec mx my); cbn;
  (split; [try discriminate; intros _; repeat split; lia
          |try reflexivity; intros (_ & _ & ?); lia]).

(** [a] does not rank below [b]. *)
Definition score_ge (a b : MatchResult.t) : Prop :=
  PyFloat.ge (MatchResult.score a) (MatchResult.score b) = true.

Definition score_is_number (r : MatchResult.t) : Prop :=
  PyFloat.is_nan (MatchResult.score r) = false.

(** Sample data: a problem tagged [recursive_decomposability] whose
    structure has no feature of its own, a pattern asking for two
    preconditions and a pattern asking for none. *)
Definition sample_problem : Problem.t :=
  Problem.mk "closest_pair" "Closest pair" (Structure.mk [] []) [] None
    ["recursive_decomposability"].

Definition sample_solution (preconditions : list string)
  (metadata : PyDict.t json) : Solution.t :=
  Solution.mk "s" "Solve" preconditions
    (Transformation.mk
       [Step.mk Operation.DECOMPOSE [("into", JInt 2)] (Some "parts") "split";
        Step.mk Operation.COMPOSE [] None "merge"]
       CompositionType.SEQUENTIAL)
    [Postcondition.mk "solved" "a solution of the whole"] metadata.

Definition sample_pattern (id : string) (preconditions : list string)
  (metadata : PyDict.t json) : Pattern.t :=
  Pattern.mk id "Pattern" "A pattern" sample_problem
    (sample_solution preconditions metadata)
    [Instantiation.mk "algorithms" "sorting" "merge sort" ""] [] ["classic"].

Definition divide_and_conquer : Pattern.t :=
  sample_pattern "divide_and_conquer"
    ["recursive_decomposability"; "independent_subproblems"] [].

Definition fallback : Pattern.t := sample_pattern "fallback" [] [].

Definition sample_store : PatternStore.t :=
  PatternStore.add fallback (PatternStore.add divide_and_conquer PatternStore.init).

(** The binary64 values of the literals [0.5] and [0.6]. *)
Definition float_0_5 : PyFloat.t := S754_finite false 4503599627370496 (-53).
Definition float_0_6 : PyFloat.t := S754_finite false 5404319552844595 (-53).

(** No two entries of the dictionary share their value. *)
Definition injective_dict (d : PyDict.t string) : Prop :=
  ∀ c1 c2 a, (c1, a) ∈ PyDict.items d → (c2, a) ∈ PyDict.items d → c1 = c2.

Definition sorting_mapping : DomainMapping.t :=
  DomainMapping.mk "algorithms" [("array", "collection")]
    [("split_array", "decompose"); ("merge_halves", "compose")] [].

(** The store after [add]ing the patterns [ps] in order. *)
Definition add_all (ps : list Pattern.t) (self : PatternStore.t) : PatternStore.t :=
  foldl (λ s p, PatternStore.add p s) self ps.

(** What [save] keeps of a pattern: everything but the [metadata] of its
    solution. *)
Definition erase_metadata (p : Pattern.t) : Pattern.t :=
  let s := Pattern.solution p in
  Pattern.mk (Pattern.id p) (Pattern.name p) (Pattern.description p)
    (Pattern.problem p)
    (Solution.mk (Solution.id s) (Solution.name s) (Solution.preconditions s)
       (Solution.transformation s) (Solution.postconditions s) [])
    (Pattern.instantiations p) (Pattern.related_patterns p) (Pattern.tags p).

Definition annotated : Pattern.t :=
  sample_pattern "annotated" ["tree"] [("source", JStr "textbook")].

(** ** Vocabulary of the further properties *)

#[global] Instance spec_float_eq_dec : EqDecision spec_float.
Proof. solve_decision. Defined.

(** Decoding an enumeration is strict: each member is decoded from its
    own value, and a value of no member raises [ValueError]. *)
Definition strict_enum {E} (value : E → string) (members : list E) : Prop :=
  (∀ m, enum_of_value value members (JStr (value m)) = inr m)
  ∧ (∀ v, (∀ m, v ≠ JStr (value m)) →
          enum_of_value value members v = inl (ValueError v)).

(** The type label [t] looked up in [type_map], with itself as fallback. *)
Definition relabel (type_map : PyDict.t string) (t : string) : string :=
  default t (PyDict.get t type_map).

Definition relabel_entity (type_map : PyDict.t string) (e : Entity.t) : Entity.t :=
  Entity.mk (Entity.id e) (relabel type_map (Entity.type e)) (Entity.properties e).

Definition relabel_relation (type_map : PyDict.t string) (r : Relation.t) : Relation.t :=
  Relation.mk (Relation.source r) (Relation.target r)
    (relabel type_map (Relation.type r)) (Relation.properties r).

Definition relabel_problem (type_map : PyDict.t string) (p : Problem.t) : Problem.t :=
  Problem.mk (Problem.id p) (Problem.name p)
    (Structure.mk
       (relabel_entity type_map <$> Structure.entities (Problem.structure p))
       (relabel_relation type_map <$> Structure.relations (Problem.structure p)))
    (Problem.constraints p) (Problem.goal p) (Problem.tags p).

(** [d[k1][k2]...]: the value read from a record along a path of keys. *)
Fixpoint subscript_path (d : json) (path : list string) : result json :=
  match path with
  | [] => mret d
  | key :: path' => v ← subscript d key; subscript_path v path'
  end.

(** The keys [_dict_to_pattern] reads by subscript from the record, its
    [problem], its [solution] and their [structure] and [transformation]. *)
Definition required_keys : list (list string) :=
  [ ["id"]; ["name"]; ["description"];
    ["problem"; "id"]; ["problem"; "name"];
    ["problem"; "structure"; "entities"]; ["problem"; "structure"; "relations"];
    ["solution"; "id"]; ["solution"; "name"];
    ["solution"; "transformation"; "steps"] ].

(** The mapping that maps nothing. *)
Definition identity_mapping : DomainMapping.t := DomainMapping.mk "" [] [] [].

Definition sample_description : json :=
  JObj [("id", JStr "sort"); ("name", JStr "Sorting");
        ("entities",
          JArr [JObj [("id", JStr "arr"); ("type", JStr "array")];
                JObj [("id", JStr "x"); ("type", JStr "item")]]);
        ("relations",
          JArr [JObj [("source", JStr "arr"); ("target", JStr "x");
                      ("type", JStr "holds")];
                JObj [("source", JStr "x"); ("target", JStr "arr");
                      ("type", JStr "in")]]);
        ("goal", JObj [("type", JStr "transform"); ("target", JStr "arr");
                       ("predicate", JStr "sorted")])].

(** * Correctness of the depth-first search *)

Lemma tc_first_step {A} (R : relation A) (x z : A) :
  tc R x z → ∃ y, R x y ∧ rtc R y z.
Proof.
  inversion 1; subst; eauto using rtc_refl, tc_rtc.
Qed.

Section dfs_correct.
Context (adj : gmap string (list string)) (N : gset string).
Hypothesis targets_in_N : ∀ x y, adj_edge adj x y → y ∈ N.

Local Abbreviation arc := (adj_edge adj).

Lemma finished_closed st x y :
  dfs_inv adj st → finished st x → rtc arc x y → finished st y.
Proof.
  intros (_ & Hcl & _) Hx Hxy. induction Hxy; eauto.
Qed.


Lemma dfs_neighbors_spec fuel node :
  (∀ n st, dfs_pre adj N fuel n st →
     ∃ r, dfs fuel adj n st = Some r ∧ dfs_post adj N n st r) →
  ∀ ns st,
    node ∈ in_stack st → visited st ⊆ N → size (N ∖ visited st) ≤ fuel →
    dfs_inv adj st →
    (∀ x, x ∈ in_stack st → rtc arc x node) →
    (∀ y, arc node y → y ∈ ns ∨ finished st y) →
    (∀ y, y ∈ ns → arc node y) →
    ∃ r, dfs_neighbors (dfs fuel adj) node ns st = Some r
         ∧ if r.1 then reaches_cycle adj node
           else in_stack r.2 = in_stack st ∖ {[node]}
                ∧ visited st ⊆ visited r.2 ∧ visited r.2 ⊆ N ∧ dfs_inv adj r.2.
Proof.
  intros IH ns.
  induction ns as [|n ns IHns]; intros st Hnode HN Hsz Hinv Hpath Hdone Hns.
  - (* every neighbour is finished: [node] is finished too *)
    eexists; split; [reflexivity|]. simpl.
    split; [done|]. split; [done|]. split; [done|].
    destruct Hinv as (Hsub & Hcl & Hacy).
    split; [|split]; unfold finished in *; simpl.
    + clear -Hsub. set_solver.
    + intros x y [Hx Hx'] Hxy.
      destruct (decide (x = node)) as [->|Hne].
      * destruct (Hdone y Hxy) as [Hy|[Hy Hy']]; [by apply elem_of_nil in Hy|].
        split; [done|]. clear -Hy'. set_solver.
      * assert (x ∉ in_stack st) as Hx'' by (clear -Hx' Hne; set_solver).
        destruct (Hcl x y) as [? Hy]; [done..|].
        split; [done|]. clear -Hy. set_solver.
    + intros x [Hx Hx'] Hcyc.
      destruct (decide (x = node)) as [->|Hne].
      * apply tc_first_step in Hcyc as (y & Hy & Hback).
        destruct (Hdone y Hy) as [Hy'|Hy']; [by apply elem_of_nil in Hy'|].
        destruct (finished_closed st y node) as [_ Hn]; [done..|]. done.
      * apply (Hacy x); [|done]. split; [done|]. clear -Hx' Hne. set_solver.
  - simpl. destruct (decide (n ∈ in_stack st)) as [Hin|Hnin].
    { (* back arc to a node on the stack *)
      eexists; split; [reflexivity|]. simpl. exists n. split.
      - apply rtc_once, Hns, list_elem_of_here.
      - eapply tc_rtc_l; [by apply Hpath|]. apply tc_once, Hns, list_elem_of_here. }
    assert (arc node n) as Hedge by apply Hns, list_elem_of_here.
    assert (∀ y, y ∈ ns → arc node y) as Hns'
      by (intros y Hy; by apply Hns, list_elem_of_further).
    destruct (decide (n ∉ visited st)) as [Hnv|Hv].
    + destruct (IH n st) as ([[] st'] & -> & Hpost).
      { repeat (split; [by eauto|]). intros x Hx. eapply rtc_r; eauto. }
      * eexists; split; [reflexivity|]. simpl.
        destruct Hpost as (c & Hc & Hcyc). exists c. eauto using rtc_l.
      * destruct Hpost as (Hst & Hvis & HN' & Hn' & Hinv'). simpl in *.
        destruct (IHns st') as (r & -> & Hr).
        -- by rewrite Hst.
        -- done.
        -- etrans; [|exact Hsz]. apply subseteq_size. clear -Hvis. set_solver.
        -- done.
        -- intros x. rewrite Hst. apply Hpath.
        -- intros y Hy. destruct (Hdone y Hy) as [Hy'|[Hy' Hy'']].
           ++ apply elem_of_cons in Hy' as [->|Hy']; [|by left].
              right. split; [done|]. by rewrite Hst.
           ++ right. split; [by apply Hvis|]. by rewrite Hst.
        -- done.
        -- exists r. split; [done|]. destruct r as [[] st'']; simpl in *; [done|].
           rewrite Hst in Hr. destruct Hr as (? & ? & ? & ?).
           split; [done|]. split; [by etrans|]. done.
    + apply dec_stable in Hv.
      apply IHns; try done.
      intros y Hy. destruct (Hdone y Hy) as [Hy'|Hy']; [|by right].
      apply elem_of_cons in Hy' as [->|Hy']; [by right|by left].
Qed.

Lemma dfs_spec fuel node st :
  dfs_pre adj N fuel node st →
  ∃ r, dfs fuel adj node st = Some r ∧ dfs_post adj N node st r.
Proof.
  revert node st. induction fuel as [|fuel IH]; intros node st.
  - intros (Hnv & HnN & _ & Hsz & _). exfalso.
    assert (node ∈ N ∖ visited st) as Hin by (clear -Hnv HnN; set_solver).
    apply Nat.le_0_r, size_empty_iff in Hsz. clear -Hin Hsz. set_solver.
  - intros (Hnv & HnN & HN & Hsz & Hinv & Hpath). simpl.
    assert (node ∉ in_stack st) as Hns.
    { destruct Hinv as (Hsub & _). clear -Hsub Hnv. set_solver. }
    destruct (dfs_neighbors_spec fuel node IH (adj_get adj node)
                (DfsState ({[node]} ∪ visited st) ({[node]} ∪ in_stack st)))
      as (r & -> & Hr); simpl.
    + clear. set_solver.
    + clear -HnN HN. set_solver.
    + assert (N ∖ ({[node]} ∪ visited st) ⊂ N ∖ visited st) as Hlt
        by (clear -Hnv HnN; set_solver).
      apply subset_size in Hlt. lia.
    + destruct Hinv as (Hsub & Hcl & Hacy).
      assert (∀ x, finished (DfsState ({[node]} ∪ visited st) ({[node]} ∪ in_stack st)) x
                   ↔ finished st x) as Hfin.
      { intros x. unfold finished; simpl. clear -Hnv Hns. set_solver. }
      split; [|split]; simpl.
      * clear -Hsub. set_solver.
      * intros x y Hx Hxy. apply Hfin. apply Hfin in Hx. eauto.
      * intros x Hx. apply Hfin in Hx. eauto.
    + intros x [->%elem_of_singleton|Hx]%elem_of_union; [done|by apply Hpath].
    + intros y Hy. by left.
    + done.
    + exists r. split; [done|]. unfold dfs_post.
      destruct r as [[] st']; simpl in *; [done|].
      destruct Hr as (Hst & Hvis & HN' & Hinv').
      split; [|split; [|split; [|split]]]; try done.
      * rewrite Hst. clear -Hns. set_solver.
      * clear -Hvis. set_solver.
      * clear -Hvis. set_solver.
Qed.

Lemma dfs_roots_spec fuel (es : list Entity.t) st :
  (∀ e, e ∈ es → Entity.id e ∈ N) →
  visited st ⊆ N → size (N ∖ visited st) ≤ fuel →
  dfs_inv adj st → in_stack st = ∅ →
  ∃ b, dfs_roots fuel adj es st = Some b
       ∧ if b then ∃ e, e ∈ es ∧ reaches_cycle adj (Entity.id e)
         else ∃ st', dfs_inv adj st' ∧ in_stack st' = ∅
                     ∧ visited st ⊆ visited st'
                     ∧ ∀ e, e ∈ es → Entity.id e ∈ visited st'.
Proof.
  revert st. induction es as [|e es IHes]; intros st Hes HN Hsz Hinv Hstack.
  - exists false. split; [done|]. exists st.
    split; [done|]. split; [done|]. split; [done|].
    intros e He. by apply elem_of_nil in He.
  - simpl.
    assert (∀ e', e' ∈ es → Entity.id e' ∈ N) as Hes'
      by (intros e' He'; by apply Hes, list_elem_of_further).
    destruct (decide (Entity.id e ∉ visited st)) as [Hnv|Hv].
    + destruct (dfs_spec fuel (Entity.id e) st) as ([[] st'] & -> & Hpost).
      { repeat (split; [by eauto using list_elem_of_here|]).
        intros x. rewrite Hstack. clear. set_solver. }
      * exists true. split; [done|]. exists e. split; [apply list_elem_of_here|done].
      * destruct Hpost as (Hst & Hvis & HN' & He & Hinv'). simpl in *.
        destruct (IHes st') as (b & -> & Hb); try done.
        -- etrans; [|exact Hsz]. apply subseteq_size. clear -Hvis. set_solver.
        -- by rewrite Hst.
        -- exists b. split; [done|]. destruct b.
           ++ destruct Hb as (e' & He' & Hcyc). exists e'.
              split; [by apply list_elem_of_further|done].
           ++ destruct Hb as (st'' & ? & ? & Hvis' & Hall). exists st''.
              split; [done|]. split; [done|]. split; [by etrans|].
              intros e' [->|He']%elem_of_cons; [by apply Hvis'|by apply Hall].
    + apply dec_stable in Hv.
      destruct (IHes st) as (b & -> & Hb); try done.
      exists b. split; [done|]. destruct b.
      * destruct Hb as (e' & He' & Hcyc). exists e'.
        split; [by apply list_elem_of_further|done].
      * destruct Hb as (st'' & ? & ? & Hvis' & Hall). exists st''.
        split; [done|]. split; [done|]. split; [done|].
        intros e' [->|He']%elem_of_cons; [by apply Hvis'|by apply Hall].
Qed.

(** From the empty traversal sets, the search over the roots [es] answers
    whether a cycle can be reached from one of them. *)
Lemma dfs_roots_correct fuel (es : list Entity.t) :
  (∀ e, e ∈ es → Entity.id e ∈ N) → size N ≤ fuel →
  ∃ b, dfs_roots fuel adj es (DfsState ∅ ∅) = Some b
       ∧ (b = true ↔ ∃ e, e ∈ es ∧ reaches_cycle adj (Entity.id e)).
Proof.
  intros Hes Hsz.
  destruct (dfs_roots_spec fuel es (DfsState ∅ ∅)) as (b & Hb & Hspec);
    simpl; try done.
  - etrans; [|exact Hsz]. apply subseteq_size. clear. set_solver.
  - split; [done|]. unfold finished; simpl. split; intros; set_solver.
  - exists b. split; [done|]. destruct b; [done|].
    split; [done|]. intros (e & He & c & Hc & Hcyc). exfalso.
    destruct Hspec as (st' & Hinv & Hstack & _ & Hall).
    assert (finished st' (Entity.id e)) as Hfin.
    { split; [by apply Hall|]. rewrite Hstack. clear. set_solver. }
    destruct Hinv as (? & ? & Hacy).
    apply (Hacy c); [|done]. by eapply finished_closed.
Qed.

End dfs_correct.

Lemma adj_get_init es n : adj_get (adj_init es) n = [].
Proof.
  unfold adj_init.
  assert (∀ a : gmap string (list string), adj_get a n = [] →
            adj_get (foldl (λ adj e, <[Entity.id e := []]> adj) a es) n = []) as H.
  { induction es as [|e es IH]; intros a Ha; [done|]. simpl. apply IH.
    unfold adj_get in *. destruct (decide (Entity.id e = n)) as [->|Hne].
    - by rewrite lookup_insert_eq.
    - by rewrite lookup_insert_ne. }
  apply H. unfold adj_get. by rewrite lookup_empty.
Qed.

Lemma adj_get_foldl rs a n :
  adj_get (foldl adj_add a rs) n
  = adj_get a n ++ (Relation.target <$> filter (λ r, Relation.source r = n) rs).
Proof.
  revert a. induction rs as [|r rs IH]; intros a; simpl.
  - by rewrite app_nil_r.
  - rewrite IH. unfold adj_add, adj_get.
    destruct (decide (Relation.source r = n)) as [Heq|Hne].
    + rewrite filter_cons_True by done. rewrite Heq, lookup_insert_eq. simpl.
      by rewrite <- app_assoc.
    + rewrite filter_cons_False by done. by rewrite lookup_insert_ne.
Qed.

(** The adjacency lists the source builds hold, for each node, the targets
    of the relations leaving it, in the order of the relation list. *)
Lemma adj_get_build s n :
  adj_get (build_adj s) n
  = Relation.target <$> filter (λ r, Relation.source r = n) (Structure.relations s).
Proof. unfold build_adj. by rewrite adj_get_foldl, adj_get_init. Qed.

Lemma adj_edge_build s x y : adj_edge (build_adj s) x y ↔ edge s x y.
Proof.
  unfold adj_edge, edge. rewrite adj_get_build, list_elem_of_fmap.
  split.
  - intros (r & -> & [? ?]%list_elem_of_filter). eauto.
  - intros (r & ? & ? & ?). exists r. split; [done|]. by apply list_elem_of_filter.
Qed.

Lemma size_list_to_set_le (l : list string) :
  size (list_to_set l : gset string) ≤ length l.
Proof.
  induction l as [|x l IH]; simpl.
  - change (size (∅ : gset string) ≤ 0). by rewrite size_empty.
  - change (size ({[x]} ∪ list_to_set l : gset string) ≤ S (length l)).
    rewrite size_union_alt, size_singleton.
    assert (size (list_to_set l ∖ {[x]} : gset string) ≤ size (list_to_set l : gset string))
      by (apply subseteq_size; set_solver).
    lia.
Qed.

Lemma size_nodes s : size (nodes s) ≤ dfs_depth s.
Proof.
  unfold nodes, dfs_depth. rewrite size_union_alt.
  pose proof (size_list_to_set_le (Entity.id <$> Structure.entities s)) as H1.
  pose proof (size_list_to_set_le (Relation.target <$> Structure.relations s)) as H2.
  rewrite length_fmap in H1. rewrite length_fmap in H2.
  assert (size (list_to_set (Relation.target <$> Structure.relations s)
                  ∖ list_to_set (Entity.id <$> Structure.entities s) : gset string)
          ≤ size (list_to_set (Relation.target <$> Structure.relations s) : gset string))
    by (apply subseteq_size; set_solver).
  lia.
Qed.

Lemma reaches_cycle_build s x :
  reaches_cycle (build_adj s) x ↔ ∃ c, rtc (edge s) x c ∧ on_cycle s c.
Proof.
  unfold reaches_cycle, on_cycle. split; intros (c & Hc & Hcyc); exists c; split.
  - eapply (rtc_congruence id); [|done]. intros ??. apply adj_edge_build.
  - eapply (tc_congruence id); [|done]. intros ??. apply adj_edge_build.
  - eapply (rtc_congruence id); [|done]. intros ??. apply adj_edge_build.
  - eapply (tc_congruence id); [|done]. intros ??. apply adj_edge_build.
Qed.

(** With [dfs_depth s] nested calls or more allowed, the cycle check
    returns, and it returns [True] exactly when a cycle can be reached from
    the id of an entity. *)
Lemma _check_cycle_fuel_correct fuel s :
  dfs_depth s ≤ fuel →
  ∃ b, _check_cycle_fuel fuel s = Some b ∧ (b = true ↔ has_cycle_from_entity s).
Proof.
  intros Hfuel. unfold _check_cycle_fuel.
  destruct (Structure.relations s) as [|r rs] eqn:Hrs.
  - exists false. split; [done|]. split; [done|].
    intros (e & c & _ & _ & Hcyc). apply tc_first_step in Hcyc as (y & (r & Hr & _) & _).
    rewrite Hrs in Hr. by apply elem_of_nil in Hr.
  - destruct (dfs_roots_correct (build_adj s) (nodes s)) with
      (fuel := fuel) (es := Structure.entities s) as (b & -> & Hb).
    + intros x y (r' & Hr' & _ & <-)%adj_edge_build. unfold nodes.
      apply elem_of_union_r, elem_of_list_to_set, list_elem_of_fmap. eauto.
    + intros e He. unfold nodes.
      apply elem_of_union_l, elem_of_list_to_set, list_elem_of_fmap. eauto.
    + pose proof (size_nodes s). lia.
    + exists b. split; [done|]. rewrite Hb. unfold has_cycle_from_entity.
      split.
      * intros (e & He & Hc%reaches_cycle_build). destruct Hc as (c & ? & ?). eauto.
      * intros (e & c & He & ? & ?). exists e. split; [done|].
        apply reaches_cycle_build. eauto.
Qed.

Lemma _check_cycle_correct s : _check_cycle s = true ↔ has_cycle_from_entity s.
Proof.
  unfold _check_cycle.
  destruct (_check_cycle_fuel_correct (dfs_depth s) s) as (b & -> & Hb); done.
Qed.

(** * Properties of the feature detector *)

Lemma has_feature_fuel_cycle fuel s :
  has_feature_fuel fuel s "cycle" = _check_cycle_fuel fuel s.
Proof. reflexivity. Qed.

Lemma has_feature_cycle s : has_feature s "cycle" = _check_cycle s.
Proof. reflexivity. Qed.

Lemma has_feature_fuel_unknown fuel s feature :
  feature ∉ feature_names → has_feature_fuel fuel s feature = Some false.
Proof.
  unfold feature_names. rewrite !not_elem_of_cons.
  intros (? & ? & ? & ? & ? & _).
  unfold has_feature_fuel, feature_checks. simpl.
  repeat (case_decide; [congruence|]). done.
Qed.

Lemma has_feature_fuel_total fuel s feature :
  dfs_depth s ≤ fuel → ∃ b, has_feature_fuel fuel s feature = Some b.
Proof.
  intros Hfuel. unfold has_feature_fuel, feature_checks. simpl.
  destruct (_check_cycle_fuel_correct fuel s Hfuel) as (b & Hb & _).
  repeat case_decide; eauto.
Qed.

Lemma has_feature_fuel_stable fuel s feature :
  dfs_depth s ≤ fuel →
  has_feature_fuel fuel s feature = has_feature_fuel (dfs_depth s) s feature.
Proof.
  intros Hfuel. unfold has_feature_fuel, feature_checks. simpl.
  assert (_check_cycle_fuel fuel s = _check_cycle_fuel (dfs_depth s) s) as Heq.
  { destruct (_check_cycle_fuel_correct fuel s Hfuel) as (b & -> & Hb).
    destruct (_check_cycle_fuel_correct (dfs_depth s) s (le_n _)) as (b' & -> & Hb').
    f_equal. destruct b, b'; intuition congruence. }
  repeat case_decide; done.
Qed.

(** Edges, cycles and reachability depend on which relations there are,
    not on their order. *)
Lemma edge_Permutation es rs rs' x y :
  rs ≡ₚ rs' → edge (Structure.mk es rs) x y → edge (Structure.mk es rs') x y.
Proof.
  intros Hp (r & Hr & ? & ?). exists r. simpl in *. by rewrite <- Hp.
Qed.

Lemma has_cycle_from_entity_Permutation es rs rs' :
  rs ≡ₚ rs' →
  has_cycle_from_entity (Structure.mk es rs) → has_cycle_from_entity (Structure.mk es rs').
Proof.
  intros Hp (e & c & He & Hc & Hcyc). exists e, c. split; [done|]. split.
  - eapply (rtc_congruence id); [|done]. intros ??. by apply edge_Permutation.
  - eapply (tc_congruence id); [|done]. intros ??. by apply edge_Permutation.
Qed.

(** Every node on a path of one step or more from [x] is reached through
    an edge leaving [x]. *)
Lemma has_cycle_sources s :
  (∀ r, r ∈ Structure.relations s →
        ∃ e, e ∈ Structure.entities s ∧ Entity.id e = Relation.source r) →
  has_cycle s → has_cycle_from_entity s.
Proof.
  intros Hsrc (c & Hcyc).
  destruct (tc_first_step _ _ _ Hcyc) as (y & (r & Hr & Hs & _) & _).
  destruct (Hsrc r Hr) as (e & He & Hid).
  exists e, c. split; [done|]. split; [|done]. rewrite Hid, Hs. apply rtc_refl.
Qed.

(** C10: asked for a feature name outside the five known ones,
    [has_feature] answers [False], on every structure. *)
Theorem has_feature_unknown_name s feature :
  feature ∉ feature_names → has_feature s feature = false.
Proof.
  intros H. unfold has_feature. by rewrite has_feature_fuel_unknown.
Qed.

Lemma has_feature_unknown_name_witness :
  ("planar" ∉ feature_names)
  ∧ has_feature (Structure.mk [Entity.mk "a" "t" []] [Relation.mk "a" "a" "x" []])
      "planar" = false.
Proof.
  assert ("planar" ∉ feature_names) as H.
  { unfold feature_names. rewrite !not_elem_of_cons. repeat split; try discriminate.
    apply not_elem_of_nil. }
  split; [exact H|]. apply (has_feature_unknown_name _ _ H).
Defined.

(** ** The nesting of [dfs] on a chain

    On the chain [n0 → n1 → ... → n<n>], [dfs(n0)] calls [dfs(n1)], which
    calls [dfs(n2)], and so on: [n + 1] nested calls. *)

Lemma node_name_inj i j : node_name i = node_name j → i = j.
Proof. unfold node_name. cbv [String.append]. intros [= H]. by apply (inj pretty) in H. Qed.

Lemma chain_relations_from n i :
  filter (λ r, Relation.source r = node_name i) (chain_relation <$> seq 0 n)
  = if decide (i < n) then [chain_relation i] else [].
Proof.
  induction n as [|n IH]; [done|].
  rewrite seq_S, fmap_app, filter_app, IH. cbn [Nat.add fmap list_fmap].
  destruct (decide (i = n)) as [->|Hne].
  - rewrite filter_cons_True by done.
    rewrite decide_False, decide_True by lia. done.
  - rewrite filter_cons_False by (cbn; intros ?%node_name_inj; lia).
    rewrite filter_nil, app_nil_r. repeat case_decide; done || lia.
Qed.

Lemma chain_adj_get n i :
  i < n → adj_get (build_adj (chain n)) (node_name i) = [node_name (S i)].
Proof.
  intros Hi. rewrite adj_get_build. unfold chain. cbn [Structure.relations].
  by rewrite chain_relations_from, decide_True.
Qed.

Lemma dfs_chain_exhausted n fuel : ∀ i st,
  fuel + i ≤ n →
  (∀ j, i < j → node_name j ∉ visited st) →
  (∀ j, i < j → node_name j ∉ in_stack st) →
  dfs fuel (build_adj (chain n)) (node_name i) st = None.
Proof.
  induction fuel as [|fuel IH]; intros i st Hfuel Hvis Hstack; [done|].
  cbn [dfs]. rewrite chain_adj_get by lia. cbn [dfs_neighbors].
  rewrite decide_False; last first.
  { cbn. intros [?%elem_of_singleton%node_name_inj|?]%elem_of_union; [lia|].
    by apply (Hstack (S i)); [lia|]. }
  rewrite decide_True; last first.
  { cbn. intros [?%elem_of_singleton%node_name_inj|?]%elem_of_union; [lia|].
    by apply (Hvis (S i)); [lia|]. }
  rewrite IH; [done|lia| |].
  - intros j Hj. cbn. intros [?%elem_of_singleton%node_name_inj|?]%elem_of_union; [lia|].
    by apply (Hvis j); [lia|].
  - intros j Hj. cbn. intros [?%elem_of_singleton%node_name_inj|?]%elem_of_union; [lia|].
    by apply (Hstack j); [lia|].
Qed.

Lemma chain_cycle_check_exhausted n fuel :
  0 < n → fuel ≤ n → has_feature_fuel fuel (chain n) "cycle" = None.
Proof.
  intros Hn Hfuel. rewrite has_feature_fuel_cycle. unfold _check_cycle_fuel.
  destruct n as [|n]; [lia|].
  change (Structure.relations (chain (S n)))
    with (chain_relation 0 :: (chain_relation <$> seq 1 n)).
  change (Structure.entities (chain (S n)))
    with (chain_entity 0 :: (chain_entity <$> seq 1 (S n))).
  cbn [dfs_roots]. rewrite decide_True by (cbn; set_solver).
  change (Entity.id (chain_entity 0)) with (node_name 0).
  rewrite dfs_chain_exhausted; [done|lia| |]; intros j _; cbn; set_solver.
Qed.

Lemma chain_well_formed n r :
  r ∈ Structure.relations (chain n) →
  ∃ e1 e2, e1 ∈ Structure.entities (chain n) ∧ e2 ∈ Structure.entities (chain n)
           ∧ Entity.id e1 = Relation.source r ∧ Entity.id e2 = Relation.target r.
Proof.
  unfold chain. cbn [Structure.relations Structure.entities].
  intros (i & -> & Hi%elem_of_seq)%list_elem_of_fmap.
  exists (chain_entity i), (chain_entity (S i)).
  repeat split; apply list_elem_of_fmap; eexists; (split; [done|]);
    apply elem_of_seq; lia.
Qed.

Lemma chain_edge n x y :
  edge (chain n) x y → ∃ i, x = node_name i ∧ y = node_name (S i).
Proof.
  unfold edge, chain. cbn [Structure.relations].
  intros (r & (i & -> & _)%list_elem_of_fmap & <- & <-). by exists i.
Qed.

Lemma chain_path n x y :
  tc (edge (chain n)) x y → ∃ i j, x = node_name i ∧ y = node_name j ∧ i < j.
Proof.
  induction 1 as [x y (i & -> & ->)%chain_edge
                 |x y z (i & -> & ->)%chain_edge _ (i' & j & Hi' & -> & Hlt)].
  - exists i, (S i). repeat split. lia.
  - apply node_name_inj in Hi' as <-. exists i, j. repeat split. lia.
Qed.

Lemma chain_acyclic n : ¬ has_cycle (chain n).
Proof.
  intros (c & (i & j & -> & Hj%node_name_inj & Hlt)%chain_path). lia.
Qed.

Lemma chain_dfs_depth n : dfs_depth (chain n) = n + S n.
Proof.
  unfold dfs_depth, chain. cbn [Structure.relations Structure.entities].
  rewrite !length_fmap, !length_seq. lia.
Qed.

Lemma chain_cycle_check_returns n fuel :
  n + S n ≤ fuel → has_feature_fuel fuel (chain n) "cycle" = Some false.
Proof.
  intros Hfuel. rewrite has_feature_fuel_cycle.
  destruct (_check_cycle_fuel_correct fuel (chain n)) as (b & -> & Hb).
  { by rewrite chain_dfs_depth. }
  destruct b; [|done]. destruct (chain_acyclic n).
  destruct (proj1 Hb eq_refl) as (_ & c & _ & _ & Hc). by exists c.
Qed.

(** Only the cycle check of a structure with relations calls [dfs]. *)
Lemma has_feature_fuel_no_dfs fuel fuel' s feature :
  feature ≠ "cycle" ∨ Structure.relations s = [] →
  has_feature_fuel fuel s feature = has_feature_fuel fuel' s feature.
Proof.
  intros Hno. assert (feature = "cycle" → _check_cycle_fuel fuel s = _check_cycle_fuel fuel' s) as H.
  { intros ->. destruct Hno as [?|Hrs]; [done|]. unfold _check_cycle_fuel. by rewrite Hrs. }
  unfold has_feature_fuel, feature_checks. cbn -[_check_cycle_fuel].
  repeat case_decide; auto.
Qed.

(** The claim of C8 fails: on the chain of 1001 entities, whose relations
    all join entities and form no cycle, the cycle check raises
    [RecursionError] whenever at most 1000 nested calls of [dfs] are
    allowed, as under the interpreter's default limit of 1000 frames; it
    answers [False] once 2001 nested calls are allowed. *)
Theorem deep_chain_exceeds_recursion_limit :
  length (Structure.entities (chain 1000)) = 1001
  ∧ (∀ r, r ∈ Structure.relations (chain 1000) →
       ∃ e1 e2, e1 ∈ Structure.entities (chain 1000)
                ∧ e2 ∈ Structure.entities (chain 1000)
                ∧ Entity.id e1 = Relation.source r ∧ Entity.id e2 = Relation.target r)
  ∧ ¬ has_cycle (chain 1000)
  ∧ Forall (λ fuel, has_feature_fuel fuel (chain 1000) "cycle" = None) (seq 0 1001)
  ∧ has_feature_fuel 2001 (chain 1000) "cycle" = Some false.
Proof.
  split.
  { unfold chain. cbn [Structure.entities]. by rewrite length_fmap, length_seq. }
  split; [apply chain_well_formed|]. split; [apply chain_acyclic|]. split.
  - apply Forall_seq. intros fuel Hfuel. apply chain_cycle_check_exhausted; lia.
  - apply chain_cycle_check_returns. lia.
Qed.

(** C8, amended: a feature check returns a boolean, without error, when
    the interpreter allows at least [dfs_depth s] nested calls of [dfs],
    the number of entities plus the number of relations; the answer is
    then the same for every such allowance: self-loops, parallel
    relations, several components and identifiers of no entity included.
    No allowance is needed for a feature other than [cycle], nor for a
    structure without relations, where [dfs] is never called. *)
Theorem has_feature_returns s feature fuel :
  dfs_depth s ≤ fuel ∨ feature ≠ "cycle" ∨ Structure.relations s = [] →
  has_feature_fuel fuel s feature = Some (has_feature s feature).
Proof.
  intros Hfuel. unfold has_feature.
  destruct (has_feature_fuel_total (dfs_depth s) s feature (le_n _)) as (b & Hb).
  rewrite Hb. simpl. rewrite <- Hb. destruct Hfuel as [Hfuel|Hno].
  - by apply has_feature_fuel_stable.
  - by apply has_feature_fuel_no_dfs.
Qed.

Lemma has_feature_returns_witness :
  let s := Structure.mk [Entity.mk "a" "t" []; Entity.mk "b" "t" []]
             [Relation.mk "a" "a" "x" []; Relation.mk "b" "ghost" "x" [];
              Relation.mk "b" "ghost" "y" []] in
  dfs_depth s ≤ 5 ∧ has_feature_fuel 5 s "cycle" = Some (has_feature s "cycle").
Proof.
  intros s. assert (dfs_depth s ≤ 5) as H by (vm_compute; lia).
  split; [exact H|]. apply (has_feature_returns s "cycle" 5 (or_introl H)).
Defined.

(** C7: the [cycle] feature of a structure with relations does not depend
    on the order in which the relations are listed. *)
Theorem cycle_feature_edge_order s rs' :
  Structure.relations s ≠ [] →
  Structure.relations s ≡ₚ rs' →
  has_feature (Structure.mk (Structure.entities s) rs') "cycle"
  = has_feature s "cycle".
Proof.
  intros _ Hp. rewrite !has_feature_cycle. destruct s as [es rs]. simpl in *.
  pose proof (_check_cycle_correct (Structure.mk es rs)) as H.
  pose proof (_check_cycle_correct (Structure.mk es rs')) as H'.
  assert (has_cycle_from_entity (Structure.mk es rs)
          ↔ has_cycle_from_entity (Structure.mk es rs')) as Hiff
    by (split; by apply has_cycle_from_entity_Permutation).
  destruct (_check_cycle (Structure.mk es rs)), (_check_cycle (Structure.mk es rs'));
    intuition congruence.
Qed.

Lemma cycle_feature_edge_order_witness :
  let s := Structure.mk [Entity.mk "a" "t" []; Entity.mk "b" "t" []]
             [Relation.mk "a" "b" "x" []; Relation.mk "b" "a" "y" []] in
  let rs' := [Relation.mk "b" "a" "y" []; Relation.mk "a" "b" "x" []] in
  Structure.relations s ≠ []
  ∧ Structure.relations s ≡ₚ rs'
  ∧ has_feature (Structure.mk (Structure.entities s) rs') "cycle" = has_feature s "cycle".
Proof.
  intros s rs'.
  assert (Structure.relations s ≠ []) as H1 by discriminate.
  assert (Structure.relations s ≡ₚ rs') as H2 by apply Permutation_swap.
  split; [exact H1|]. split; [exact H2|].
  apply (cycle_feature_edge_order s rs' H1 H2).
Defined.

(** The claim of C4 fails: a self-loop on an identifier that belongs to no
    entity is a directed cycle of the edge graph, yet the [cycle] feature
    is reported absent, the search starting from entities only. *)
Lemma cycle_outside_entities_not_reported :
  let s := Structure.mk [] [Relation.mk "a" "a" "depends_on" []] in
  has_cycle s ∧ has_feature s "cycle" = false.
Proof.
  intros s. split; [|reflexivity].
  exists "a". apply tc_once. exists (Relation.mk "a" "a" "depends_on" []).
  split; [apply list_elem_of_here|done].
Qed.

(** C4, amended: the [cycle] feature holds exactly when a directed cycle
    of the graph of all relations, whatever their type, can be reached
    from the identifier of an entity; the cycle itself may run through
    identifiers of no entity.  Where every relation leaves an entity this
    is the existence of a directed cycle.  Without relations the feature
    never holds. *)
Theorem cycle_feature_iff_reachable_cycle s :
  (has_feature s "cycle" = true ↔ has_cycle_from_entity s)
  ∧ ((∀ r, r ∈ Structure.relations s →
           ∃ e, e ∈ Structure.entities s ∧ Entity.id e = Relation.source r) →
     (has_feature s "cycle" = true ↔ has_cycle s))
  ∧ (Structure.relations s = [] → has_feature s "cycle" = false).
Proof.
  rewrite has_feature_cycle. split; [apply _check_cycle_correct|]. split.
  - intros Hsrc. rewrite _check_cycle_correct. split.
    + intros (e & c & _ & _ & Hc). by exists c.
    + by apply has_cycle_sources.
  - intros Hrs. unfold _check_cycle, _check_cycle_fuel. by rewrite Hrs.
Qed.

Lemma cycle_feature_iff_reachable_cycle_witness :
  let s := Structure.mk [Entity.mk "a" "t" []]
             [Relation.mk "a" "b" "x" []; Relation.mk "b" "c" "y" [];
              Relation.mk "c" "b" "x" []] in
  has_feature s "cycle" = true ∧ has_cycle_from_entity s.
Proof.
  intros s. assert (has_feature s "cycle" = true) as H by reflexivity.
  split; [exact H|].
  apply (proj1 (proj1 (cycle_feature_iff_reachable_cycle s)) H).
Defined.

(** * Facts about binary64 comparison and integer division *)

(** The literals are the binary64 values the machine reads, and the
    quotient of two small naturals is the one the machine computes. *)
Example float_literals :
  Prim2SF 0x1.999999999999ap-4%float = PyFloat.tenth
  ∧ Prim2SF 0.5%float = float_0_5
  ∧ Prim2SF 0x1.3333333333333p-1%float = float_0_6.
Proof. repeat split; vm_compute; reflexivity. Qed.

Example int_truediv_machine :
  forallb (λ b, forallb (λ a, same_float (PyFloat.int_truediv a b) (machine_div a b))
                  (seqZ 0 (b + 1)))
    (seqZ 1 64)
  = true.
Proof. vm_compute. reflexivity. Qed.

Lemma SFleb_key x y :
  SFleb x y = true
  ↔ PyFloat.is_nan x = false ∧ PyFloat.is_nan y = false
    ∧ lex_le (float_key x) (float_key y).
Proof.
  unfold SFleb, SFcompare. float_cases x y; float_finite_cases mx ex my ey.
Qed.

Lemma SFltb_key x y :
  SFltb x y = true
  ↔ PyFloat.is_nan x = false ∧ PyFloat.is_nan y = false
    ∧ lex_lt (float_key x) (float_key y).
Proof.
  unfold SFltb, SFcompare. float_cases x y; float_finite_cases mx ex my ey.
Qed.

Lemma float_ge_of_not_lt x y :
  PyFloat.is_nan x = false → PyFloat.is_nan y = false →
  PyFloat.lt x y = false → PyFloat.ge x y = true.
Proof.
  unfold PyFloat.lt, PyFloat.ge. intros Hx Hy Hlt.
  apply SFleb_key. split; [done|]. split; [done|].
  assert (¬ lex_lt (float_key x) (float_key y)) as Hn.
  { intros H. rewrite (proj2 (SFltb_key x y)) in Hlt; [done|by repeat split]. }
  clear Hlt. destruct (float_key x) as [[??]?], (float_key y) as [[??]?].
  unfold lex_lt, lex_le in *. lia.
Qed.

Lemma float_ge_of_lt x y : PyFloat.lt x y = true → PyFloat.ge y x = true.
Proof.
  unfold PyFloat.lt, PyFloat.ge. intros (Hx & Hy & H)%SFltb_key.
  apply SFleb_key. split; [done|]. split; [done|].
  destruct (float_key x) as [[??]?], (float_key y) as [[??]?].
  unfold lex_lt, lex_le in *. lia.
Qed.

Lemma float_ge_trans x y z :
  PyFloat.ge x y = true → PyFloat.ge y z = true → PyFloat.ge x z = true.
Proof.
  unfold PyFloat.ge. intros (? & ? & H1)%SFleb_key (? & ? & H2)%SFleb_key.
  apply SFleb_key. split; [done|]. split; [done|].
  destruct (float_key x) as [[??]?], (float_key y) as [[??]?],
    (float_key z) as [[??]?].
  unfold lex_le in *. lia.
Qed.

Lemma shr_1_nonneg mrs : (0 ≤ shr_m mrs → 0 ≤ shr_m (shr_1 mrs))%Z.
Proof. destruct mrs as [[|[p|p|]|p] r s]; cbn; lia. Qed.

Lemma iter_pos_shr_1_nonneg p mrs :
  (0 ≤ shr_m mrs → 0 ≤ shr_m (SpecFloat.iter_pos shr_1 p mrs))%Z.
Proof.
  revert mrs. induction p as [p IH|p IH|]; intros mrs H; cbn.
  - apply IH, IH, shr_1_nonneg, H.
  - apply IH, IH, H.
  - apply shr_1_nonneg, H.
Qed.

Lemma shr_fexp_nonneg prec emax m e l :
  (0 ≤ m → 0 ≤ shr_m (shr_fexp prec emax m e l).1)%Z.
Proof.
  intros H. unfold shr_fexp, shr.
  assert (0 ≤ shr_m (shr_record_of_loc m l))%Z as H'
    by (destruct l as [|[]]; exact H).
  destruct (fexp prec emax (Zdigits2 m + e) - e)%Z; cbn;
    auto using iter_pos_shr_1_nonneg.
Qed.

Lemma round_nearest_even_nonneg m l : (0 ≤ m → 0 ≤ round_nearest_even m l)%Z.
Proof. intros H. destruct l as [|[]]; cbn; try destruct (Z.even m); lia. Qed.

(** Rounding a non-negative mantissa yields a zero, a finite value or an
    infinity. *)
Lemma binary_round_aux_not_nan prec emax sx mx ex lx :
  (0 ≤ mx)%Z → PyFloat.is_nan (binary_round_aux prec emax sx mx ex lx) = false.
Proof.
  intros H. unfold binary_round_aux.
  pose proof (shr_fexp_nonneg prec emax mx ex lx H) as H1.
  destruct (shr_fexp prec emax mx ex lx) as [mrs' e']. cbn [fst] in H1.
  pose proof (shr_fexp_nonneg prec emax _ e' loc_Exact
                (round_nearest_even_nonneg _ (loc_of_shr_record mrs') H1)) as H2.
  destruct (shr_fexp prec emax (round_nearest_even _ _) e' loc_Exact) as [mrs'' e''].
  cbn [fst] in H2. destruct (shr_m mrs'') as [|m|m]; [reflexivity| |lia].
  destruct (e'' <=? emax - prec)%Z; reflexivity.
Qed.

(** The quotient of a natural number by a positive one is a number. *)
Lemma int_truediv_not_nan a b :
  (0 ≤ a)%Z → (0 < b)%Z → PyFloat.is_nan (PyFloat.int_truediv a b) = false.
Proof.
  intros Ha Hb. unfold PyFloat.int_truediv.
  destruct b as [|pb|pb]; try lia. destruct a as [|pa|pa]; try lia; [reflexivity|].
  cbn [PyFloat.of_int SFdiv].
  destruct (SFdiv_core_binary PyFloat.prec PyFloat.emax (Z.pos pa) 0 (Z.pos pb) 0)
    as [[mz ez] lz] eqn:Hcore.
  apply binary_round_aux_not_nan.
  unfold SFdiv_core_binary in Hcore.
  set (m' := match (_ - _ - _)%Z with Z0 => _ | Zpos _ => _ | Zneg _ => _ end) in Hcore.
  assert (0 ≤ m')%Z as Hm'.
  { subst m'. destruct (_ - _ - _)%Z; try lia. apply Z.shiftl_nonneg. lia. }
  pose proof (Z_div_mod m' (Z.pos pb) ltac:(lia)) as Hdm.
  destruct (Z.div_eucl m' (Z.pos pb)) as [q r]. injection Hcore as <- _ _.
  nia.
Qed.

(** * Properties of [match] *)

Lemma insert_by_score_Permutation r l : insert_by_score r l ≡ₚ r :: l.
Proof.
  induction l as [|r' l IH]; simpl; [done|].
  destruct (PyFloat.lt _ _); [|done]. rewrite IH. apply Permutation_swap.
Qed.

Lemma sort_by_score_reverse_Permutation l : sort_by_score_reverse l ≡ₚ l.
Proof.
  induction l as [|r l IH]; simpl; [done|].
  by rewrite insert_by_score_Permutation, IH.
Qed.

Lemma insert_by_score_sorted r l :
  score_is_number r → Forall score_is_number l →
  StronglySorted score_ge l → StronglySorted score_ge (insert_by_score r l).
Proof.
  intros Hr Hl Hs. induction Hs as [|r' l Hs IH Hall]; simpl.
  - repeat constructor.
  - apply Forall_cons in Hl as [Hr' Hl].
    destruct (PyFloat.lt _ _) eqn:Hlt.
    + constructor; [by apply IH|].
      rewrite insert_by_score_Permutation. constructor; [|done].
      by apply float_ge_of_lt.
    + assert (score_ge r r') as Hge by by apply float_ge_of_not_lt.
      constructor; [by constructor|]. constructor; [done|].
      eapply Forall_impl; [exact Hall|]. intros x Hx.
      by eapply float_ge_trans.
Qed.

Lemma sort_by_score_reverse_sorted l :
  Forall score_is_number l → StronglySorted score_ge (sort_by_score_reverse l).
Proof.
  induction 1 as [|r l Hr Hl IH]; simpl; [constructor|].
  apply insert_by_score_sorted; [done| |done].
  by rewrite sort_by_score_reverse_Permutation.
Qed.

Lemma list_to_set_eq_empty (l : list string) :
  (list_to_set l : gset string) = ∅ ↔ l = [].
Proof.
  split; [|by intros ->]. destruct l as [|x l]; [done|]. simpl. set_solver.
Qed.

Lemma match_pattern_pattern F th p r :
  match_pattern F th p = Some r → MatchResult.pattern r = p.
Proof.
  unfold match_pattern. repeat case_match; naive_solver.
Qed.

Lemma match_pattern_number F th p r :
  match_pattern F th p = Some r → score_is_number r.
Proof.
  unfold match_pattern, score_is_number. case_decide as Hreq.
  - by intros [= <-].
  - case_match; [|done]. intros [= <-]. simpl.
    apply int_truediv_not_nan; [lia|].
    assert (size (list_to_set (Solution.preconditions (Pattern.solution p)) : gset string) ≠ 0)
      by (rewrite size_empty_iff; by intros ?%leibniz_equiv).
    lia.
Qed.

Lemma elem_of_match_ self problem threshold r :
  r ∈ PatternStore.match_ self problem threshold
  ↔ ∃ p, p ∈ PatternStore.all_patterns self
         ∧ match_pattern (problem_features problem) threshold p = Some r.
Proof.
  unfold PatternStore.match_.
  rewrite sort_by_score_reverse_Permutation. apply list_elem_of_omap.
Qed.

Lemma match_sorted self problem threshold :
  StronglySorted score_ge (PatternStore.match_ self problem threshold).
Proof.
  apply sort_by_score_reverse_sorted, Forall_forall.
  intros r (p & _ & Hr)%list_elem_of_omap. by eapply match_pattern_number.
Qed.

(** A pattern without preconditions is reported for every problem and
    every threshold. *)
Lemma match_no_preconditions self problem threshold p :
  p ∈ PatternStore.all_patterns self →
  Solution.preconditions (Pattern.solution p) = [] →
  MatchResult.mk p PyFloat.tenth [] [] ∈ PatternStore.match_ self problem threshold.
Proof.
  intros Hp Hpre. apply elem_of_match_. exists p. split; [done|].
  unfold match_pattern. rewrite Hpre. by rewrite decide_True.
Qed.

(** C2: a stored pattern whose solution has no preconditions is among the
    results of [match] for every problem and every threshold, with score
    [0.1] and empty matched and unmatched lists: the threshold plays no
    part. *)
Theorem match_empty_preconditions_any_threshold self problem threshold p :
  p ∈ PatternStore.all_patterns self →
  Solution.preconditions (Pattern.solution p) = [] →
  ∃ r, r ∈ PatternStore.match_ self problem threshold
       ∧ MatchResult.pattern r = p
       ∧ MatchResult.score r = PyFloat.tenth
       ∧ MatchResult.matched_features r = []
       ∧ MatchResult.unmatched_preconditions r = [].
Proof.
  intros Hp Hpre. exists (MatchResult.mk p PyFloat.tenth [] []).
  split; [by apply match_no_preconditions|done].
Qed.

Lemma match_empty_preconditions_any_threshold_witness :
  fallback ∈ PatternStore.all_patterns sample_store
  ∧ Solution.preconditions (Pattern.solution fallback) = []
  ∧ ∃ r, r ∈ PatternStore.match_ sample_store sample_problem float_0_6
         ∧ MatchResult.pattern r = fallback
         ∧ MatchResult.score r = PyFloat.tenth
         ∧ MatchResult.matched_features r = []
         ∧ MatchResult.unmatched_preconditions r = [].
Proof.
  assert (fallback ∈ PatternStore.all_patterns sample_store) as H1
    by (apply list_elem_of_further, list_elem_of_here).
  assert (Solution.preconditions (Pattern.solution fallback) = []) as H2
    by reflexivity.
  split; [exact H1|]. split; [exact H2|].
  apply (match_empty_preconditions_any_threshold
           sample_store sample_problem float_0_6 fallback H1 H2).
Defined.

(** The claim of C3 fails: [0.5] is strictly greater than [0.1], and the
    pattern without preconditions is still among the results. *)
Lemma match_above_tenth_not_excluded :
  PyFloat.lt PyFloat.tenth float_0_5 = true
  ∧ fallback ∈ PatternStore.all_patterns sample_store
  ∧ Solution.preconditions (Pattern.solution fallback) = []
  ∧ MatchResult.mk fallback PyFloat.tenth [] []
    ∈ PatternStore.match_ sample_store sample_problem float_0_5.
Proof.
  split; [reflexivity|].
  assert (fallback ∈ PatternStore.all_patterns sample_store) as H1
    by (apply list_elem_of_further, list_elem_of_here).
  split; [exact H1|]. split; [reflexivity|].
  by apply match_no_preconditions.
Qed.

(** C3, amended: a stored pattern whose solution has no preconditions is
    included with score exactly [0.1] when the threshold is at most [0.1],
    and it is included, with the same score, when the threshold is
    strictly greater than [0.1] as well. *)
Theorem match_empty_preconditions_below_and_above self problem threshold p :
  p ∈ PatternStore.all_patterns self →
  Solution.preconditions (Pattern.solution p) = [] →
  (PyFloat.ge PyFloat.tenth threshold = true →
   MatchResult.mk p PyFloat.tenth [] [] ∈ PatternStore.match_ self problem threshold)
  ∧ (PyFloat.lt PyFloat.tenth threshold = true →
     MatchResult.mk p PyFloat.tenth [] [] ∈ PatternStore.match_ self problem threshold).
Proof.
  intros Hp Hpre. split; intros _; by apply match_no_preconditions.
Qed.

Lemma match_empty_preconditions_below_and_above_witness :
  fallback ∈ PatternStore.all_patterns sample_store
  ∧ Solution.preconditions (Pattern.solution fallback) = []
  ∧ PyFloat.lt PyFloat.tenth float_0_5 = true
  ∧ MatchResult.mk fallback PyFloat.tenth [] []
    ∈ PatternStore.match_ sample_store sample_problem float_0_5.
Proof.
  assert (fallback ∈ PatternStore.all_patterns sample_store) as H1
    by (apply list_elem_of_further, list_elem_of_here).
  assert (Solution.preconditions (Pattern.solution fallback) = []) as H2
    by reflexivity.
  assert (PyFloat.lt PyFloat.tenth float_0_5 = true) as H3 by reflexivity.
  split; [exact H1|]. split; [exact H2|]. split; [exact H3|].
  apply (proj2 (match_empty_preconditions_below_and_above
                  sample_store sample_problem float_0_5 fallback H1 H2) H3).
Defined.

Lemma match_pattern_preconditions F threshold p :
  Solution.preconditions (Pattern.solution p) ≠ [] →
  let R : gset string := list_to_set (Solution.preconditions (Pattern.solution p)) in
  let sc := PyFloat.int_truediv (Z.of_nat (size (R ∩ F))) (Z.of_nat (size R)) in
  match_pattern F threshold p
  = if PyFloat.ge sc threshold
    then Some (MatchResult.mk p sc (sorted (R ∩ F)) (sorted (R ∖ F)))
    else None.
Proof.
  intros Hpre. unfold match_pattern.
  rewrite decide_False; [done|]. by rewrite list_to_set_eq_empty.
Qed.

(** C5: for a stored pattern with a nonempty set [R] of preconditions and
    a problem with feature and tag set [F], the score is [|R ∩ F| / |R|],
    the pattern is among the results exactly when that score is at least
    the threshold, and the results come sorted by score, highest first. *)
Theorem match_score_threshold_sorted self problem threshold p :
  p ∈ PatternStore.all_patterns self →
  Solution.preconditions (Pattern.solution p) ≠ [] →
  let R : gset string := list_to_set (Solution.preconditions (Pattern.solution p)) in
  let F := problem_features problem in
  let sc := PyFloat.int_truediv (Z.of_nat (size (R ∩ F))) (Z.of_nat (size R)) in
  (∀ r, r ∈ PatternStore.match_ self problem threshold →
        MatchResult.pattern r = p →
        MatchResult.score r = sc
        ∧ MatchResult.matched_features r = sorted (R ∩ F)
        ∧ MatchResult.unmatched_preconditions r = sorted (R ∖ F))
  ∧ ((∃ r, r ∈ PatternStore.match_ self problem threshold
           ∧ MatchResult.pattern r = p)
     ↔ PyFloat.ge sc threshold = true)
  ∧ StronglySorted score_ge (PatternStore.match_ self problem threshold).
Proof.
  intros Hp Hpre R F sc.
  pose proof (match_pattern_preconditions F threshold p Hpre) as Hmp.
  cbv zeta in Hmp. fold R in Hmp. fold sc in Hmp.
  assert (∀ r, r ∈ PatternStore.match_ self problem threshold →
               MatchResult.pattern r = p →
               match_pattern F threshold p = Some r) as Hin.
  { intros r (p' & _ & Hr)%elem_of_match_ Hrp.
    apply match_pattern_pattern in Hr as Hp'. by rewrite <- Hrp, Hp'. }
  split; [|split].
  - intros r Hr Hrp. specialize (Hin r Hr Hrp). rewrite Hmp in Hin.
    destruct (PyFloat.ge sc threshold); [|done]. injection Hin as <-.
    repeat split; reflexivity.
  - split.
    + intros (r & Hr & Hrp). specialize (Hin r Hr Hrp). rewrite Hmp in Hin.
      by destruct (PyFloat.ge sc threshold).
    + intros Hge. rewrite Hge in Hmp. eexists. split.
      * apply elem_of_match_. by exists p.
      * done.
  - apply match_sorted.
Qed.

Lemma match_score_threshold_sorted_witness :
  divide_and_conquer ∈ PatternStore.all_patterns sample_store
  ∧ Solution.preconditions (Pattern.solution divide_and_conquer) ≠ []
  ∧ ((∃ r, r ∈ PatternStore.match_ sample_store sample_problem float_0_5
           ∧ MatchResult.pattern r = divide_and_conquer)
     ↔ PyFloat.ge (PyFloat.int_truediv 1 2) float_0_5 = true)
  ∧ StronglySorted score_ge (PatternStore.match_ sample_store sample_problem float_0_5).
Proof.
  assert (divide_and_conquer ∈ PatternStore.all_patterns sample_store) as H1
    by apply list_elem_of_here.
  assert (Solution.preconditions (Pattern.solution divide_and_conquer) ≠ []) as H2
    by discriminate.
  split; [exact H1|]. split; [exact H2|].
  exact (proj2 (match_score_threshold_sorted
                  sample_store sample_problem float_0_5 divide_and_conquer H1 H2)).
Defined.

(** The worked case of the specification: one of the two preconditions is
    met, the score is [0.5]; the pattern is left out at threshold [0.6] and
    reported at threshold [0.5], ahead of the pattern without
    preconditions. *)
Example match_half_score :
  PyFloat.int_truediv 1 2 = float_0_5
  ∧ PatternStore.match_ sample_store sample_problem float_0_6
    = [MatchResult.mk fallback PyFloat.tenth [] []]
  ∧ PatternStore.match_ sample_store sample_problem float_0_5
    = [MatchResult.mk divide_and_conquer float_0_5
         ["recursive_decomposability"] ["independent_subproblems"];
       MatchResult.mk fallback PyFloat.tenth [] []].
Proof. repeat split; vm_compute; reflexivity. Qed.

(** The round trip of the specification: both preconditions are among the
    features of the problem, the score is [1.0] and the matched labels come
    sorted. *)
Example match_full_score :
  let p := sample_pattern "fixed_point" ["iterative"; "convergent"] [] in
  let problem :=
    Problem.mk "pagerank" "PageRank" (Structure.mk [] []) [] None
      ["iterative"; "convergent"; "has_contractive_map"] in
  PatternStore.match_ (PatternStore.add p PatternStore.init) problem float_0_5
  = [MatchResult.mk p (S754_finite false 4503599627370496 (-52))
       ["convergent"; "iterative"] []].
Proof. vm_compute. reflexivity. Qed.

(** * Properties of dictionaries *)

Lemma PyDict_get_setitem_eq {V} (k : string) (v : V) d :
  PyDict.get k (PyDict.setitem k v d) = Some v.
Proof.
  induction d as [|[k' v'] d IH]; simpl.
  - by rewrite decide_True.
  - destruct (decide (k = k')) as [->|Hne]; simpl.
    + by rewrite decide_True.
    + by rewrite decide_False.
Qed.

Lemma PyDict_get_setitem_ne {V} (k k' : string) (v : V) d :
  k ≠ k' → PyDict.get k' (PyDict.setitem k v d) = PyDict.get k' d.
Proof.
  intros Hne. induction d as [|[k'' v''] d IH]; simpl.
  - by rewrite decide_False.
  - destruct (decide (k = k'')) as [->|Hne']; simpl.
    + by rewrite !decide_False.
    + by rewrite IH.
Qed.

Lemma PyDict_get_Some_elem {V} (k : string) (v : V) d :
  PyDict.get k d = Some v → (k, v) ∈ PyDict.items d.
Proof.
  unfold PyDict.items. induction d as [|[k' v'] d IH]; simpl; [done|].
  destruct (decide (k = k')) as [->|Hne].
  - intros [= ->]. apply list_elem_of_here.
  - intros H. by apply list_elem_of_further, IH.
Qed.

Lemma PyDict_get_elem {V} (k : string) (v : V) d :
  PyDict.wf d → (k, v) ∈ PyDict.items d → PyDict.get k d = Some v.
Proof.
  unfold PyDict.wf, PyDict.keys, PyDict.items.
  induction d as [|[k' v'] d IH]; simpl.
  - intros _ H. by apply elem_of_nil in H.
  - intros [Hk' Hnd]%NoDup_cons [[= -> ->]|Hin]%elem_of_cons.
    + by rewrite decide_True.
    + rewrite decide_False; [by apply IH|].
      intros ->. apply Hk', list_elem_of_fmap. by exists (k', v).
Qed.

Lemma PyDict_setitem_fresh {V} (k : string) (v : V) d :
  k ∉ PyDict.keys d → PyDict.setitem k v d = d ++ [(k, v)].
Proof.
  unfold PyDict.keys. induction d as [|[k' v'] d IH]; simpl; [done|].
  intros [Hne Hk]%not_elem_of_cons. rewrite decide_False by done.
  by rewrite IH.
Qed.

(** * Properties of domain mappings *)

Lemma invert_snoc d c a :
  DomainMapping.invert (d ++ [(c, a)]) = PyDict.setitem a c (DomainMapping.invert d).
Proof. unfold DomainMapping.invert, PyDict.items. by rewrite foldl_snoc. Qed.

Lemma invert_lookup d c a :
  injective_dict d → (c, a) ∈ PyDict.items d →
  PyDict.get a (DomainMapping.invert d) = Some c.
Proof.
  unfold injective_dict, PyDict.items.
  induction d as [|[c' a'] d IH] using rev_ind; intros Hinj Hin.
  - by apply elem_of_nil in Hin.
  - rewrite invert_snoc. destruct (decide (a' = a)) as [->|Hne].
    + rewrite PyDict_get_setitem_eq. f_equal.
      apply (Hinj c' c a); [|done]. apply elem_of_app. right. apply list_elem_of_here.
    + rewrite PyDict_get_setitem_ne by done. apply IH.
      * intros c1 c2 b H1 H2. apply (Hinj c1 c2 b); apply elem_of_app; by left.
      * apply elem_of_app in Hin as [Hin|Hin]; [done|].
        apply list_elem_of_singleton in Hin. congruence.
Qed.

(** C9: in a mapping whose operation dictionary is injective, every entry
    [(c, a)] is found again through the reverse dictionary: the forward
    lookup of [c] gives [a] and the reverse lookup of [a] gives [c]. *)
Theorem inverse_operation_map_roundtrip (mapping : DomainMapping.t) c a :
  PyDict.wf (DomainMapping.operation_map mapping) →
  injective_dict (DomainMapping.operation_map mapping) →
  (c, a) ∈ PyDict.items (DomainMapping.operation_map mapping) →
  PyDict.get c (DomainMapping.operation_map mapping) = Some a
  ∧ PyDict.get a (DomainMapping.inverse_operation_map mapping) = Some c.
Proof.
  intros Hwf Hinj Hin. split; [by apply PyDict_get_elem|by apply invert_lookup].
Qed.

(** [instantiate] then names the step by the concrete label. *)
Lemma instantiate_step_operation (mapping : DomainMapping.t) c step :
  injective_dict (DomainMapping.operation_map mapping) →
  (c, Operation.value (Step.operation step))
    ∈ PyDict.items (DomainMapping.operation_map mapping) →
  PyDict.get "operation"
    (instantiate_step (DomainMapping.inverse_operation_map mapping)
       (DomainMapping.domain mapping) step)
  = Some (JStr c).
Proof.
  intros Hinj Hin. unfold instantiate_step, DomainMapping.inverse_operation_map.
  by rewrite (invert_lookup _ c _ Hinj Hin).
Qed.

Lemma inverse_operation_map_roundtrip_witness :
  PyDict.wf (DomainMapping.operation_map sorting_mapping)
  ∧ injective_dict (DomainMapping.operation_map sorting_mapping)
  ∧ ("merge_halves", "compose") ∈ PyDict.items (DomainMapping.operation_map sorting_mapping)
  ∧ PyDict.get "merge_halves" (DomainMapping.operation_map sorting_mapping) = Some "compose"
  ∧ PyDict.get "compose" (DomainMapping.inverse_operation_map sorting_mapping)
    = Some "merge_halves".
Proof.
  assert (PyDict.wf (DomainMapping.operation_map sorting_mapping)) as H1.
  { unfold PyDict.wf. simpl. apply NoDup_cons. split.
    - rewrite list_elem_of_singleton. discriminate.
    - apply NoDup_singleton. }
  assert (injective_dict (DomainMapping.operation_map sorting_mapping)) as H2.
  { intros c1 c2 b. unfold PyDict.items. simpl.
    rewrite !elem_of_cons, !elem_of_nil. intros [|[|[]]] [|[|[]]]; congruence. }
  assert (("merge_halves", "compose")
            ∈ PyDict.items (DomainMapping.operation_map sorting_mapping)) as H3
    by apply list_elem_of_further, list_elem_of_here.
  split; [exact H1|]. split; [exact H2|]. split; [exact H3|].
  apply (inverse_operation_map_roundtrip sorting_mapping _ _ H1 H2 H3).
Defined.

(** * Properties of [load] and [save] *)

Lemma load_items_ok items self self' :
  PatternStore.load_items items self = (self', None) →
  ∃ ps, mapM _dict_to_pattern items = inr ps ∧ self' = add_all ps self.
Proof.
  revert self. induction items as [|item items IH]; intros self; simpl.
  - intros [= <-]. by exists [].
  - destruct (_dict_to_pattern item) as [e|p]; [done|].
    intros (ps & -> & ->)%IH. by exists (p :: ps).
Qed.

Lemma load_items_error items self self' e :
  PatternStore.load_items items self = (self', Some e) →
  ∃ done bad rest ps,
    items = done ++ bad :: rest
    ∧ mapM _dict_to_pattern done = inr ps
    ∧ _dict_to_pattern bad = inl e
    ∧ self' = add_all ps self.
Proof.
  revert self. induction items as [|item items IH]; intros self; simpl; [done|].
  destruct (_dict_to_pattern item) as [e'|p] eqn:Hitem.
  - intros [= <- <-]. by exists [], item, items, [].
  - intros (done & bad & rest & ps & -> & Hdone & Hbad & ->)%IH.
    exists (item :: done), bad, rest, (p :: ps). simpl. by rewrite Hitem, Hdone.
Qed.

Lemma get_add_all_other ps self k :
  k ∉ Pattern.id <$> ps →
  PatternStore.get k (add_all ps self) = PatternStore.get k self.
Proof.
  revert self. induction ps as [|p ps IH]; intros self; simpl; [done|].
  intros [Hne Hk]%not_elem_of_cons. rewrite IH by done.
  unfold PatternStore.get, PatternStore.add. by apply PyDict_get_setitem_ne.
Qed.

Lemma load_failure_keeps_prefix_aux data self self' e :
  PatternStore.load data self = (self', Some e) →
  (iterate data = inl e ∧ self' = self) ∨ ∃ ps, self' = add_all ps self.
Proof.
  unfold PatternStore.load. destruct (iterate data) as [e'|items].
  - intros [= <- <-]. by left.
  - intros (done & bad & rest & ps & _ & _ & _ & ->)%load_items_error. eauto.
Qed.

(** The claim of C1 fails: the first record is stored before the second,
    malformed one raises [KeyError], and stays stored. *)
Lemma load_failure_keeps_earlier_records :
  PatternStore.load (JArr [_pattern_to_dict fallback; JObj []]) PatternStore.init
  = ([("fallback", fallback)], Some (KeyError "problem"))
  ∧ [("fallback", fallback)] ≠ PatternStore.init.
Proof. split; [vm_compute; reflexivity|discriminate]. Qed.

(** C1, amended: when [load] fails on a malformed or enum-violating
    record, the store is what it was before the call updated by the
    records that precede the first failing one, each added under its
    identifier; the failing record and those after it have no effect,
    entries under other identifiers are as before, and the store is
    exactly as before when the failing record is the first one (or the
    document cannot be iterated). *)
Theorem load_failure_keeps_prefix data self self' e :
  PatternStore.load data self = (self', Some e) →
  (iterate data = inl e ∧ self' = self)
  ∨ ∃ done bad rest ps,
      iterate data = inr (done ++ bad :: rest)
      ∧ mapM _dict_to_pattern done = inr ps
      ∧ _dict_to_pattern bad = inl e
      ∧ self' = add_all ps self
      ∧ (∀ k, k ∉ Pattern.id <$> ps →
              PatternStore.get k self' = PatternStore.get k self)
      ∧ (done = [] → self' = self).
Proof.
  unfold PatternStore.load. destruct (iterate data) as [e'|items].
  - intros [= <- <-]. by left.
  - intros (done & bad & rest & ps & -> & Hdone & Hbad & ->)%load_items_error.
    right. exists done, bad, rest, ps. repeat split; try done.
    + intros k Hk. by apply get_add_all_other.
    + intros ->. by injection Hdone as <-.
Qed.

Lemma load_failure_keeps_prefix_witness :
  let data := JArr [_pattern_to_dict fallback; JObj []] in
  PatternStore.load data PatternStore.init
  = ([("fallback", fallback)], Some (KeyError "problem"))
  ∧ ((iterate data = inl (KeyError "problem")
      ∧ [("fallback", fallback)] = PatternStore.init)
     ∨ ∃ done bad rest ps,
         iterate data = inr (done ++ bad :: rest)
         ∧ mapM _dict_to_pattern done = inr ps
         ∧ _dict_to_pattern bad = inl (KeyError "problem")
         ∧ [("fallback", fallback)] = add_all ps PatternStore.init
         ∧ (∀ k, k ∉ Pattern.id <$> ps →
                 PatternStore.get k [("fallback", fallback)]
                 = PatternStore.get k PatternStore.init)
         ∧ (done = [] → [("fallback", fallback)] = PatternStore.init)).
Proof.
  intros data.
  assert (PatternStore.load data PatternStore.init
          = ([("fallback", fallback)], Some (KeyError "problem"))) as H
    by (vm_compute; reflexivity).
  split; [exact H|].
  apply (load_failure_keeps_prefix data PatternStore.init _ _ H).
Defined.

Lemma mapM_roundtrip {A} (f : json → result A) (g : A → json) l :
  (∀ x, f (g x) = inr x) → mapM f (g <$> l) = inr l.
Proof.
  intros H. induction l as [|x l IH]; [done|].
  change (mapM f (g <$> x :: l))
    with (y ← f (g x); k ← mapM f (g <$> l); mret (y :: k)).
  by rewrite H, IH.
Qed.

Lemma comprehension_roundtrip {A} (f : json → result A) (g : A → json) l :
  (∀ x, f (g x) = inr x) → comprehension f (JArr (g <$> l)) = inr l.
Proof. intros H. unfold comprehension. simpl. by apply mapM_roundtrip. Qed.

Lemma dict_to_entity_roundtrip e : dict_to_entity (entity_to_dict e) = inr e.
Proof. destruct e. vm_compute. reflexivity. Qed.

Lemma dict_to_relation_roundtrip r : dict_to_relation (relation_to_dict r) = inr r.
Proof. destruct r. vm_compute. reflexivity. Qed.

Lemma dict_to_constraint_roundtrip c :
  dict_to_constraint (constraint_to_dict c) = inr c.
Proof.
  destruct c as [p o []]; unfold dict_to_constraint; simpl;
    rewrite (mapM_roundtrip (as_str "over") JStr) by done; reflexivity.
Qed.

Lemma dict_to_step_roundtrip s : dict_to_step (step_to_dict s) = inr s.
Proof. by destruct s as [[] ? [] ?]. Qed.

Lemma dict_to_postcondition_roundtrip pc :
  dict_to_postcondition (postcondition_to_dict pc) = inr pc.
Proof. by destruct pc. Qed.

Lemma dict_to_instantiation_roundtrip i :
  dict_to_instantiation (instantiation_to_dict i) = inr i.
Proof. destruct i. vm_compute. reflexivity. Qed.

(** Decoding an encoded pattern gives the pattern back, its enumeration
    members included, with the solution's metadata emptied. *)
Lemma _dict_to_pattern_roundtrip p :
  _dict_to_pattern (_pattern_to_dict p) = inr (erase_metadata p).
Proof.
  destruct p as [id name descr [pid pname [es rs] cs goal ptags]
                   [sid sname pre [steps ct] pcs md] insts rel tags].
  unfold _dict_to_pattern, _pattern_to_dict, problem_to_dict, solution_to_dict,
    erase_metadata.
  simpl.
  rewrite (comprehension_roundtrip _ _ es dict_to_entity_roundtrip).
  rewrite (comprehension_roundtrip _ _ rs dict_to_relation_roundtrip).
  rewrite (comprehension_roundtrip _ _ cs dict_to_constraint_roundtrip).
  rewrite (comprehension_roundtrip _ _ steps dict_to_step_roundtrip).
  rewrite (comprehension_roundtrip _ _ pcs dict_to_postcondition_roundtrip).
  rewrite (comprehension_roundtrip _ _ insts dict_to_instantiation_roundtrip).
  rewrite !(mapM_roundtrip (as_str _) JStr) by done.
  destruct goal as [[[] ? ?]|], ct; reflexivity.
Qed.

Lemma erase_metadata_id p : Pattern.id (erase_metadata p) = Pattern.id p.
Proof. done. Qed.

Lemma erase_metadata_empty p :
  Solution.metadata (Pattern.solution p) = [] → erase_metadata p = p.
Proof. destruct p as [? ? ? ? [] ? ? ?]. simpl. by intros ->. Qed.

Lemma load_items_roundtrip ps self :
  PatternStore.load_items (_pattern_to_dict <$> ps) self
  = (add_all (erase_metadata <$> ps) self, None).
Proof.
  revert self. induction ps as [|p ps IH]; intros self; simpl; [done|].
  by rewrite _dict_to_pattern_roundtrip, IH.
Qed.

Lemma add_all_fresh (s acc : PatternStore.t) :
  NoDup (PyDict.keys (acc ++ s)) →
  Forall (λ kp, kp.1 = Pattern.id kp.2) s →
  add_all (PyDict.values s) acc = acc ++ s.
Proof.
  revert acc. induction s as [|[k p] s IH]; intros acc Hnd Hid; simpl.
  - by rewrite app_nil_r.
  - apply Forall_cons in Hid as [Hk Hid]. simpl in Hk. subst k.
    unfold PatternStore.add. rewrite PyDict_setitem_fresh.
    + rewrite IH; [by rewrite <- app_assoc| |done]. by rewrite <- app_assoc.
    + unfold PyDict.keys in *. rewrite fmap_app in Hnd.
      apply NoDup_app in Hnd as (_ & Hdisj & _). intros Hin.
      apply (Hdisj _ Hin). simpl. apply list_elem_of_here.
Qed.

(** The store invariant holds initially and [add] keeps it. *)
Lemma PatternStore_wf_init : PatternStore.wf PatternStore.init.
Proof. split; [apply NoDup_nil_2|apply Forall_nil_2]. Qed.

Lemma PyDict_keys_setitem {V} (k : string) (v : V) d :
  PyDict.keys (PyDict.setitem k v d)
  = if decide (k ∈ PyDict.keys d) then PyDict.keys d else PyDict.keys d ++ [k].
Proof.
  unfold PyDict.keys. induction d as [|[k' v'] d IH]; csimpl; [done|].
  destruct (decide (k = k')) as [->|Hne]; csimpl.
  - rewrite decide_True; [done|apply list_elem_of_here].
  - rewrite IH. destruct (decide (k ∈ d.*1)) as [Hin|Hnin].
    + rewrite decide_True; [done|by apply list_elem_of_further].
    + rewrite decide_False; [done|]. by intros [?|?]%elem_of_cons.
Qed.

Lemma PatternStore_wf_add p self :
  PatternStore.wf self → PatternStore.wf (PatternStore.add p self).
Proof.
  intros [Hnd Hid]. unfold PatternStore.add. split.
  - unfold PyDict.wf in *. rewrite PyDict_keys_setitem. case_decide; [done|].
    apply NoDup_app. split; [done|]. split; [|apply NoDup_singleton].
    intros x Hx ->%list_elem_of_singleton. done.
  - clear Hnd. induction self as [|[k' p'] self IH]; simpl.
    + by repeat constructor.
    + apply Forall_cons in Hid as [Hk' Hid]. case_decide.
      * by constructor.
      * constructor; [done|by apply IH].
Qed.

Lemma add_all_wf ps self :
  PatternStore.wf self → PatternStore.wf (add_all ps self).
Proof.
  revert self. induction ps as [|p ps IH]; intros self Hwf; simpl; [done|].
  by apply IH, PatternStore_wf_add.
Qed.

(** [load] keeps the invariant, whether it fails or not, and so does
    [remove]. *)
Lemma PatternStore_wf_load data self :
  PatternStore.wf self → PatternStore.wf (PatternStore.load data self).1.
Proof.
  intros Hwf. destruct (PatternStore.load data self) as [self' [e|]] eqn:Hload.
  - apply load_failure_keeps_prefix_aux in Hload
      as [[_ ->]|(ps & ->)]; [done|by apply add_all_wf].
  - unfold PatternStore.load in Hload. destruct (iterate data); [done|].
    apply load_items_ok in Hload as (ps & _ & ->). by apply add_all_wf.
Qed.

Lemma PatternStore_wf_remove k self :
  PatternStore.wf self → PatternStore.wf (PatternStore.remove k self).2.
Proof.
  unfold PatternStore.remove, PatternStore.wf, PyDict.wf, PyDict.keys.
  induction self as [|[k' p'] self IH]; simpl; [done|].
  intros [[Hk' Hnd]%NoDup_cons [Hid Hall]%Forall_cons].
  destruct (decide (k = k')) as [->|Hne]; simpl; [done|].
  destruct (PyDict.pop k self) as [r d] eqn:Hpop. simpl in *.
  destruct (IH (conj Hnd Hall)) as [Hnd' Hall'].
  split; [|by constructor]. csimpl. apply NoDup_cons. split; [|done].
  intros Hin. apply Hk'. clear -Hin Hpop.
  revert d r Hin Hpop. induction self as [|[k'' p''] self IH']; simpl.
  - by intros d r Hin [= _ <-].
  - intros d r Hin. destruct (decide (k = k'')) as [->|Hne'].
    + intros [= _ <-]. by apply list_elem_of_further.
    + destruct (PyDict.pop k self) as [r' d'] eqn:Hpop'. intros [= _ <-].
      csimpl in Hin. apply elem_of_cons in Hin as [->|Hin].
      * apply list_elem_of_here.
      * apply list_elem_of_further. by eapply IH'.
Qed.

Lemma save_load_erases self :
  PatternStore.wf self →
  PatternStore.load (PatternStore.save self) PatternStore.init
  = (prod_map id erase_metadata <$> self, None).
Proof.
  intros [Hnd Hid]. unfold PatternStore.load, PatternStore.save. simpl.
  rewrite load_items_roundtrip. f_equal.
  set (s' := prod_map id erase_metadata <$> self).
  assert (erase_metadata <$> PatternStore.all_patterns self = PyDict.values s') as ->.
  { unfold PatternStore.all_patterns, PyDict.values, s'.
    rewrite <- !list_fmap_compose. by apply list_fmap_ext; intros ? []. }
  rewrite (add_all_fresh s' PatternStore.init); [done| |].
  - unfold PyDict.wf, PyDict.keys, s' in *. simpl.
    rewrite <- list_fmap_compose.
    by erewrite list_fmap_ext; [exact Hnd|intros ? []].
  - unfold s'. apply Forall_fmap. eapply Forall_impl; [exact Hid|]. by intros [].
Qed.

(** The claim of C6 fails: the metadata of a solution is lost between
    [save] and [load]. *)
Lemma save_load_loses_metadata :
  let self := PatternStore.add annotated PatternStore.init in
  PatternStore.wf self
  ∧ PatternStore.load (PatternStore.save self) PatternStore.init
    = ([("annotated", sample_pattern "annotated" ["tree"] [])], None)
  ∧ [("annotated", sample_pattern "annotated" ["tree"] [])] ≠ self.
Proof.
  intros self. split; [apply PatternStore_wf_add, PatternStore_wf_init|].
  split; [vm_compute; reflexivity|]. discriminate.
Qed.

(** C6, amended: [save] followed by [load] into a fresh store reproduces
    the identifiers, in their order, each with a pattern equal field for
    field to the original one, enumeration members included, except for
    the metadata of the solution, which is not written and comes back
    empty.  A store whose solutions carry no metadata is reproduced
    exactly. *)
Theorem save_load_roundtrip self :
  PatternStore.wf self →
  PatternStore.load (PatternStore.save self) PatternStore.init
  = (prod_map id erase_metadata <$> self, None)
  ∧ (Forall (λ p, Solution.metadata (Pattern.solution p) = [])
       (PatternStore.all_patterns self) →
     PatternStore.load (PatternStore.save self) PatternStore.init = (self, None)).
Proof.
  intros Hwf. split; [by apply save_load_erases|].
  intros Hmd. rewrite save_load_erases by done. f_equal.
  unfold PatternStore.all_patterns, PyDict.values in Hmd.
  clear Hwf. induction self as [|[k p] self IH]; [done|].
  apply Forall_cons in Hmd as [Hp Hmd]. csimpl.
  rewrite IH by done. unfold prod_map. simpl. by rewrite erase_metadata_empty.
Qed.

Lemma save_load_roundtrip_witness :
  PatternStore.wf sample_store
  ∧ PatternStore.load (PatternStore.save sample_store) PatternStore.init
    = (sample_store, None).
Proof.
  assert (PatternStore.wf sample_store) as H
    by (repeat apply PatternStore_wf_add; apply PatternStore_wf_init).
  split; [exact H|].
  apply (proj2 (save_load_roundtrip sample_store H)).
  repeat constructor.
Defined.

(** * Further properties of the pattern store *)

Lemma PyDict_get_None {V} (k : string) (d : PyDict.t V) :
  PyDict.get k d = None ↔ k ∉ PyDict.keys d.
Proof.
  unfold PyDict.keys. induction d as [|[k' v'] d IH]; csimpl.
  - split; [intros _; apply not_elem_of_nil|done].
  - rewrite not_elem_of_cons. destruct (decide (k = k')) as [->|Hne].
    + split; [done|by intros []].
    + rewrite IH. naive_solver.
Qed.

Lemma PyDict_pop_absent {V} (k : string) (d : PyDict.t V) :
  PyDict.get k d = None → PyDict.pop k d = (None, d).
Proof.
  induction d as [|[k' v'] d IH]; simpl; [done|].
  destruct (decide (k = k')); [done|]. intros H. by rewrite (IH H).
Qed.

Lemma PyDict_pop_present {V} (k : string) (v : V) (d : PyDict.t V) :
  PyDict.get k d = Some v →
  ∃ d', PyDict.pop k d = (Some v, d')
        ∧ S (length d') = length d
        ∧ (∀ k', k' ≠ k → PyDict.get k' d' = PyDict.get k' d)
        ∧ (PyDict.wf d → PyDict.get k d' = None).
Proof.
  unfold PyDict.wf, PyDict.keys.
  induction d as [|[k' v'] d IH]; simpl; [done|].
  destruct (decide (k = k')) as [->|Hne].
  - intros [= ->]. exists d. split; [done|]. split; [done|]. split.
    + intros k'' Hk''. by rewrite decide_False.
    + csimpl. intros [Hk' _]%NoDup_cons. by apply PyDict_get_None.
  - intros (d' & -> & Hlen & Hget & Hnone)%IH. exists ((k', v') :: d').
    split; [done|]. split; [simpl; by rewrite Hlen|]. split.
    + intros k'' Hk''. simpl. destruct (decide (k'' = k')); [done|by apply Hget].
    + csimpl. intros [_ Hnd]%NoDup_cons. rewrite decide_False by done. by apply Hnone.
Qed.

(** X1: a pattern just added is found under its identifier, and the
    lookup of every other identifier is as before. *)
Theorem get_add p self :
  PatternStore.get (Pattern.id p) (PatternStore.add p self) = Some p
  ∧ ∀ k, k ≠ Pattern.id p →
         PatternStore.get k (PatternStore.add p self) = PatternStore.get k self.
Proof.
  unfold PatternStore.get, PatternStore.add. split.
  - apply PyDict_get_setitem_eq.
  - intros k Hk. by apply PyDict_get_setitem_ne.
Qed.

(** Assigning to a key that is present overwrites the value of its
    entry, the first and, in a dictionary, only one of that key. *)
Lemma PyDict_setitem_present {V} (k : string) (v w : V) (d : list (string * V)) :
  PyDict.get k d = Some w →
  ∃ i, d !! i = Some (k, w)
       ∧ (∀ j kv, j < i → d !! j = Some kv → kv.1 ≠ k)
       ∧ PyDict.setitem k v d = <[i := (k, v)]> d.
Proof.
  induction d as [|[k' v'] d IH]; simpl; [done|].
  destruct (decide (k = k')) as [<-|Hne].
  - intros [= ->]. exists 0. split; [done|]. split; [lia|done].
  - intros (i & Hi & Hfirst & Hset)%IH. exists (S i). split; [done|]. split.
    + intros [|j] kv Hj; simpl.
      * intros [= <-]. simpl. congruence.
      * apply Hfirst. lia.
    + simpl. by rewrite Hset.
Qed.

(** X2: adding under a new identifier appends the pattern at the end of
    the store; adding under an identifier already present replaces the
    pattern where it stands: the entry of that identifier now holds the
    new pattern, every other entry is as before, and the number of
    patterns and the order of the identifiers are unchanged. *)
Theorem add_new_or_replace p self :
  (PatternStore.get (Pattern.id p) self = None →
   PatternStore.add p self = self ++ [(Pattern.id p, p)])
  ∧ (is_Some (PatternStore.get (Pattern.id p) self) →
     PatternStore.len (PatternStore.add p self) = PatternStore.len self
     ∧ PyDict.keys (PatternStore.add p self) = PyDict.keys self
     ∧ ∃ i q, self !! i = Some (Pattern.id p, q)
              ∧ PatternStore.get (Pattern.id p) self = Some q
              ∧ PatternStore.add p self = <[i := (Pattern.id p, p)]> self
              ∧ PatternStore.all_patterns (PatternStore.add p self)
                = <[i := p]> (PatternStore.all_patterns self)).
Proof.
  revert self. unfold PatternStore.t, PyDict.t. intros self.
  unfold PatternStore.get, PatternStore.add, PatternStore.len,
    PatternStore.all_patterns, PyDict.values, PyDict.keys. split.
  - intros H%PyDict_get_None. by apply PyDict_setitem_fresh.
  - intros [q Hq].
    destruct (PyDict_setitem_present _ p q self Hq) as (i & Hi & _ & Hset).
    rewrite Hset. split; [by rewrite length_insert|]. split.
    + rewrite list_fmap_insert. simpl. apply list_insert_id.
      by rewrite list_lookup_fmap, Hi.
    + exists i, q. split; [done|]. split; [done|]. split; [done|].
      by rewrite list_fmap_insert.
Qed.

Lemma add_new_or_replace_witness :
  let p := sample_pattern "fallback" ["tree"] [] in
  is_Some (PatternStore.get (Pattern.id p) sample_store)
  ∧ PatternStore.all_patterns (PatternStore.add p sample_store)
    = [divide_and_conquer; p].
Proof.
  intros p.
  assert (is_Some (PatternStore.get (Pattern.id p) sample_store)) as H
    by (exists fallback; reflexivity).
  split; [exact H|].
  destruct (proj2 (add_new_or_replace p sample_store) H)
    as (_ & _ & i & q & Hi & _ & _ & ->).
  destruct i as [|[|i]]; [discriminate Hi|reflexivity|discriminate Hi].
Defined.

(** X3: removing an identifier that is not stored returns [False] and
    leaves the store as it is. *)
Theorem remove_absent k self :
  PatternStore.get k self = None → PatternStore.remove k self = (false, self).
Proof.
  unfold PatternStore.get, PatternStore.remove. intros H.
  by rewrite (PyDict_pop_absent k self H).
Qed.

Lemma remove_absent_witness :
  PatternStore.get "unknown" sample_store = None
  ∧ PatternStore.remove "unknown" sample_store = (false, sample_store).
Proof.
  assert (PatternStore.get "unknown" sample_store = None) as H by reflexivity.
  split; [exact H|]. apply (remove_absent "unknown" sample_store H).
Defined.

(** X4: removing a stored identifier returns [True], takes exactly one
    pattern out, leaves nothing under that identifier and keeps what is
    stored under every other identifier. *)
Theorem remove_present k p self :
  PatternStore.wf self →
  PatternStore.get k self = Some p →
  (PatternStore.remove k self).1 = true
  ∧ S (PatternStore.len (PatternStore.remove k self).2) = PatternStore.len self
  ∧ PatternStore.get k (PatternStore.remove k self).2 = None
  ∧ ∀ k', k' ≠ k →
          PatternStore.get k' (PatternStore.remove k self).2 = PatternStore.get k' self.
Proof.
  unfold PatternStore.get, PatternStore.remove, PatternStore.len.
  intros [Hwf _] (d' & -> & Hlen & Hget & Hnone)%PyDict_pop_present. simpl.
  split; [done|]. split; [done|]. split; [by apply Hnone|done].
Qed.

Lemma remove_present_witness :
  PatternStore.wf sample_store
  ∧ PatternStore.get "fallback" sample_store = Some fallback
  ∧ (PatternStore.remove "fallback" sample_store).1 = true
  ∧ S (PatternStore.len (PatternStore.remove "fallback" sample_store).2)
    = PatternStore.len sample_store.
Proof.
  assert (PatternStore.wf sample_store) as H1
    by (repeat apply PatternStore_wf_add; apply PatternStore_wf_init).
  assert (PatternStore.get "fallback" sample_store = Some fallback) as H2
    by reflexivity.
  split; [exact H1|]. split; [exact H2|].
  pose proof (remove_present "fallback" fallback sample_store H1 H2) as (? & ? & _).
  split; assumption.
Defined.

(** X5: the invariant of the store, every key being the identifier of
    the pattern under it and no key occurring twice, holds for the empty
    store and is kept by [add], by [remove] and by [load], whether the
    load succeeds or fails. *)
Theorem store_invariant self :
  PatternStore.wf PatternStore.init
  ∧ (PatternStore.wf self →
     (∀ p, PatternStore.wf (PatternStore.add p self))
     ∧ (∀ k, PatternStore.wf (PatternStore.remove k self).2)
     ∧ (∀ data, PatternStore.wf (PatternStore.load data self).1)).
Proof.
  split; [apply PatternStore_wf_init|]. intros Hwf. split; [|split].
  - intros p. by apply PatternStore_wf_add.
  - intros k. by apply PatternStore_wf_remove.
  - intros data. by apply PatternStore_wf_load.
Qed.

Lemma store_invariant_witness :
  PatternStore.wf sample_store
  ∧ PatternStore.wf (PatternStore.remove "fallback" sample_store).2.
Proof.
  assert (PatternStore.wf sample_store) as H
    by (repeat apply PatternStore_wf_add; apply PatternStore_wf_init).
  split; [exact H|].
  apply (proj1 (proj2 (proj2 (store_invariant sample_store) H))).
Defined.

(** X6: [search_by_tag] returns, in store order, exactly the stored
    patterns that carry every given tag; without tags it returns every
    stored pattern. *)
Theorem search_by_tag_spec tags self :
  PatternStore.search_by_tag [] self = PatternStore.all_patterns self
  ∧ PatternStore.search_by_tag tags self `sublist_of` PatternStore.all_patterns self
  ∧ ∀ p, p ∈ PatternStore.search_by_tag tags self
         ↔ p ∈ PatternStore.all_patterns self ∧ ∀ t, t ∈ tags → t ∈ Pattern.tags p.
Proof.
  unfold PatternStore.search_by_tag. split; [|split].
  - induction (PatternStore.all_patterns self) as [|p l IH]; [done|].
    rewrite filter_cons_True; [by rewrite IH|]. simpl. set_solver.
  - apply sublist_filter.
  - intros p. rewrite list_elem_of_filter. set_solver.
Qed.

(** X7: [search_by_domain] returns, in store order, exactly the stored
    patterns with an instantiation in the domain, and recording an
    instantiation on a pattern adds its domain to the domains the pattern
    covers. *)
Theorem search_by_domain_spec domain self :
  PatternStore.search_by_domain domain self `sublist_of` PatternStore.all_patterns self
  ∧ (∀ p, p ∈ PatternStore.search_by_domain domain self
          ↔ p ∈ PatternStore.all_patterns self
            ∧ ∃ i, i ∈ Pattern.instantiations p ∧ Instantiation.domain i = domain)
  ∧ ∀ inst p,
      PatternStore.domains_covered (add_instantiation inst p)
      = PatternStore.domains_covered p ∪ {[Instantiation.domain inst]}.
Proof.
  unfold PatternStore.search_by_domain, PatternStore.domains_covered. split; [|split].
  - apply sublist_filter.
  - intros p. rewrite list_elem_of_filter, elem_of_list_to_set, list_elem_of_fmap.
    naive_solver.
  - intros inst p. simpl. rewrite fmap_app, list_to_set_app_L. simpl. set_solver.
Qed.

(** * Further properties of [match] *)

Lemma div_eucl_shift p :
  Z.div_eucl (Z.shiftl (Z.pos p) 53) (Z.pos p) = (2 ^ 53, 0)%Z.
Proof.
  rewrite Z.shiftl_mul_pow2 by lia.
  assert (Z.pos p * 2 ^ 53 / Z.pos p = 2 ^ 53)%Z as Hq
    by (rewrite Z.mul_comm; apply Z.div_mul; lia).
  assert ((Z.pos p * 2 ^ 53) mod Z.pos p = 0)%Z as Hr
    by (rewrite Z.mul_comm; apply Z.mod_mul; lia).
  unfold Z.div, Z.modulo in Hq, Hr.
  destruct (Z.div_eucl (Z.pos p * 2 ^ 53) (Z.pos p)) as [q r]. by subst.
Qed.

(** A positive integer divided by itself is [1.0]. *)
Lemma int_truediv_self n : (0 < n)%Z → PyFloat.int_truediv n n = float_1_0.
Proof.
  intros Hn. destruct n as [|p|p]; try lia.
  unfold PyFloat.int_truediv. cbn [PyFloat.of_int SFdiv].
  unfold SFdiv_core_binary.
  replace (Zdigits2 (Z.pos p) + 0 - (Zdigits2 (Z.pos p) + 0))%Z with 0%Z by lia.
  change (Z.min (fexp PyFloat.prec PyFloat.emax 0) (0 - 0)) with (-53)%Z.
  change (0 - 0 - -53)%Z with 53%Z.
  cbv beta iota. rewrite div_eucl_shift.
  replace (new_location (Z.pos p) 0) with loc_Exact
    by (unfold new_location; destruct (Z.even (Z.pos p)); reflexivity).
  vm_compute. reflexivity.
Qed.

Lemma binary_round_aux_sign prec emax sx mx ex lx :
  (0 ≤ mx)%Z →
  match binary_round_aux prec emax sx mx ex lx with
  | S754_zero s | S754_infinity s | S754_finite s _ _ => s = sx
  | S754_nan => False
  end.
Proof.
  intros H. unfold binary_round_aux.
  pose proof (shr_fexp_nonneg prec emax mx ex lx H) as H1.
  destruct (shr_fexp prec emax mx ex lx) as [mrs' e']. cbn [fst] in H1.
  pose proof (shr_fexp_nonneg prec emax _ e' loc_Exact
                (round_nearest_even_nonneg _ (loc_of_shr_record mrs') H1)) as H2.
  destruct (shr_fexp prec emax (round_nearest_even _ _) e' loc_Exact) as [mrs'' e''].
  cbn [fst] in H2. destruct (shr_m mrs'') as [|m|m]; [reflexivity| |lia].
  destruct (e'' <=? emax - prec)%Z; reflexivity.
Qed.

(** The quotient of a natural number by a positive one is at least [0.0]. *)
Lemma int_truediv_nonneg a b :
  (0 ≤ a)%Z → (0 < b)%Z →
  PyFloat.ge (PyFloat.int_truediv a b) (S754_zero false) = true.
Proof.
  intros Ha Hb. unfold PyFloat.int_truediv, PyFloat.ge.
  destruct b as [|pb|pb]; try lia. destruct a as [|pa|pa]; try lia; [reflexivity|].
  cbn [PyFloat.of_int SFdiv].
  destruct (SFdiv_core_binary PyFloat.prec PyFloat.emax (Z.pos pa) 0 (Z.pos pb) 0)
    as [[mz ez] lz] eqn:Hcore.
  assert (0 ≤ mz)%Z as Hmz.
  { unfold SFdiv_core_binary in Hcore.
    set (m' := match (_ - _ - _)%Z with Z0 => _ | Zpos _ => _ | Zneg _ => _ end) in Hcore.
    assert (0 ≤ m')%Z as Hm'.
    { subst m'. destruct (_ - _ - _)%Z; try lia. apply Z.shiftl_nonneg. lia. }
    pose proof (Z_div_mod m' (Z.pos pb) ltac:(lia)) as Hdm.
    destruct (Z.div_eucl m' (Z.pos pb)) as [q r]. injection Hcore as <- _ _. nia. }
  pose proof (binary_round_aux_sign PyFloat.prec PyFloat.emax
                (xorb false false) mz ez lz Hmz) as Hs.
  destruct (binary_round_aux _ _ _ _ _ _) as [s|s| |s m e]; try done;
    simpl in Hs; by subst s.
Qed.

Lemma match_pattern_score_nonneg F th p r :
  match_pattern F th p = Some r →
  PyFloat.ge (MatchResult.score r) (S754_zero false) = true.
Proof.
  unfold match_pattern. case_decide as Hreq.
  - by intros [= <-].
  - case_match; [|done]. intros [= <-]. simpl.
    apply int_truediv_nonneg; [lia|].
    assert (size (list_to_set (Solution.preconditions (Pattern.solution p)) : gset string) ≠ 0)
      by (rewrite size_empty_iff; by intros ?%leibniz_equiv).
    lia.
Qed.

Lemma omap_pattern_sublist F th l :
  MatchResult.pattern <$> omap (match_pattern F th) l `sublist_of` l.
Proof.
  induction l as [|p l IH]; csimpl; [done|].
  destruct (match_pattern F th p) as [r|] eqn:Hr; csimpl.
  - rewrite (match_pattern_pattern _ _ _ _ Hr). by constructor.
  - by constructor.
Qed.

(** X8: every result of [match] reports a stored pattern, and a stored
    pattern is reported at most as often as it is stored: the reported
    patterns are, up to order, taken from the stored ones. *)
Theorem match_reports_stored_patterns self problem threshold :
  MatchResult.pattern <$> PatternStore.match_ self problem threshold
  ⊆+ PatternStore.all_patterns self.
Proof.
  unfold PatternStore.match_. rewrite sort_by_score_reverse_Permutation.
  apply sublist_submseteq, omap_pattern_sublist.
Qed.

(** X9: with a threshold of [0.0] or below, every stored pattern is
    reported, whatever the problem: no score is negative. *)
Theorem match_threshold_zero_reports_all self problem threshold :
  PyFloat.ge (S754_zero false) threshold = true →
  MatchResult.pattern <$> PatternStore.match_ self problem threshold
  ≡ₚ PatternStore.all_patterns self.
Proof.
  intros Hth. unfold PatternStore.match_. rewrite sort_by_score_reverse_Permutation.
  induction (PatternStore.all_patterns self) as [|p l IH]; csimpl; [done|].
  destruct (match_pattern _ threshold p) as [r|] eqn:Hr; csimpl.
  - by rewrite (match_pattern_pattern _ _ _ _ Hr), IH.
  - exfalso. unfold match_pattern in Hr. case_decide as Hreq; [done|].
    cbv zeta in Hr. set (sc := PyFloat.int_truediv _ _) in Hr.
    destruct (PyFloat.ge sc threshold) eqn:Hge; [discriminate|].
    rewrite (float_ge_trans sc (S754_zero false)) in Hge; [done| |done].
    apply int_truediv_nonneg; [lia|].
    assert (size (list_to_set (Solution.preconditions (Pattern.solution p)) : gset string) ≠ 0)
      by (rewrite size_empty_iff; by intros ?%leibniz_equiv).
    lia.
Qed.

Lemma match_threshold_zero_reports_all_witness :
  PyFloat.ge (S754_zero false) (S754_zero false) = true
  ∧ MatchResult.pattern <$> PatternStore.match_ sample_store sample_problem (S754_zero false)
    ≡ₚ PatternStore.all_patterns sample_store.
Proof.
  assert (PyFloat.ge (S754_zero false) (S754_zero false) = true) as H by reflexivity.
  split; [exact H|].
  apply (match_threshold_zero_reports_all sample_store sample_problem _ H).
Defined.

(** X10: lowering the threshold never loses a result: what [match]
    reports at a threshold it reports, unchanged, at every lower one. *)
Theorem match_threshold_monotone self problem th_low th_high r :
  PyFloat.ge th_high th_low = true →
  r ∈ PatternStore.match_ self problem th_high →
  r ∈ PatternStore.match_ self problem th_low.
Proof.
  intros Hth (p & Hp & Hr)%elem_of_match_. apply elem_of_match_.
  exists p. split; [done|]. unfold match_pattern in *.
  case_decide; [done|]. cbv zeta in *.
  destruct (PyFloat.ge _ th_high) eqn:Hge; [|discriminate].
  by rewrite (float_ge_trans _ _ _ Hge Hth).
Qed.

Lemma match_threshold_monotone_witness :
  let r := MatchResult.mk divide_and_conquer float_0_5
             ["recursive_decomposability"] ["independent_subproblems"] in
  PyFloat.ge float_0_5 PyFloat.tenth = true
  ∧ r ∈ PatternStore.match_ sample_store sample_problem float_0_5
  ∧ r ∈ PatternStore.match_ sample_store sample_problem PyFloat.tenth.
Proof.
  intros r.
  assert (PyFloat.ge float_0_5 PyFloat.tenth = true) as H1 by reflexivity.
  assert (r ∈ PatternStore.match_ sample_store sample_problem float_0_5) as H2
    by (vm_compute; apply list_elem_of_here).
  split; [exact H1|]. split; [exact H2|].
  apply (match_threshold_monotone sample_store sample_problem _ _ r H1 H2).
Defined.

Lemma sorted_empty_iff (X : gset string) : sorted X = [] ↔ X = ∅.
Proof.
  unfold sorted. split.
  - intros H. apply leibniz_equiv, elements_empty_iff.
    apply Permutation_nil_r. rewrite <- H. by rewrite merge_sort_Permutation.
  - intros ->. by rewrite elements_empty.
Qed.

Lemma match_result_of_pattern self problem threshold p r :
  Solution.preconditions (Pattern.solution p) ≠ [] →
  r ∈ PatternStore.match_ self problem threshold →
  MatchResult.pattern r = p →
  let R : gset string := list_to_set (Solution.preconditions (Pattern.solution p)) in
  let F := problem_features problem in
  r = MatchResult.mk p
        (PyFloat.int_truediv (Z.of_nat (size (R ∩ F))) (Z.of_nat (size R)))
        (sorted (R ∩ F)) (sorted (R ∖ F)).
Proof.
  intros Hpre (p' & _ & Hr)%elem_of_match_ Hrp R F.
  apply match_pattern_pattern in Hr as Hp'. rewrite Hrp in Hp'. subst p'.
  rewrite (match_pattern_preconditions _ _ _ Hpre) in Hr. cbv zeta in Hr.
  fold R F in Hr. destruct (PyFloat.ge _ threshold); by simplify_eq.
Qed.

(** X11: for a stored pattern with preconditions, a reported result has
    an empty list of unmatched preconditions exactly when the solution
    [matches] the problem, that is when every precondition is among the
    features and tags of the problem; a solution without preconditions
    matches every problem. *)
Theorem unmatched_empty_iff_matches self problem threshold p r :
  Solution.preconditions (Pattern.solution p) ≠ [] →
  r ∈ PatternStore.match_ self problem threshold →
  MatchResult.pattern r = p →
  (MatchResult.unmatched_preconditions r = []
   ↔ matches (Pattern.solution p) problem = true)
  ∧ ∀ s : Solution.t, Solution.preconditions s = [] → matches s problem = true.
Proof.
  intros Hpre Hr Hrp. split.
  - rewrite (match_result_of_pattern _ _ _ _ _ Hpre Hr Hrp). simpl.
    rewrite sorted_empty_iff. unfold matches. rewrite bool_decide_eq_true.
    split.
    + intros H x Hx. destruct (decide (x ∈ problem_features problem)) as [|Hn]; [done|].
      assert (x ∈ (∅ : gset string)) as H0; [|by apply not_elem_of_empty in H0].
      rewrite <- H. by apply elem_of_difference.
    + intros H. apply leibniz_equiv. intros x. rewrite elem_of_difference.
      split; [intros [? ?]; exfalso; auto|by intros ?%not_elem_of_empty].
  - intros s Hs. unfold matches. rewrite Hs. apply bool_decide_eq_true. set_solver.
Qed.

Lemma unmatched_empty_iff_matches_witness :
  let r := MatchResult.mk divide_and_conquer float_0_5
             ["recursive_decomposability"] ["independent_subproblems"] in
  Solution.preconditions (Pattern.solution divide_and_conquer) ≠ []
  ∧ r ∈ PatternStore.match_ sample_store sample_problem float_0_5
  ∧ (MatchResult.unmatched_preconditions r = []
     ↔ matches (Pattern.solution divide_and_conquer) sample_problem = true).
Proof.
  intros r.
  assert (Solution.preconditions (Pattern.solution divide_and_conquer) ≠ []) as H1
    by discriminate.
  assert (r ∈ PatternStore.match_ sample_store sample_problem float_0_5) as H2
    by (vm_compute; apply list_elem_of_here).
  split; [exact H1|]. split; [exact H2|].
  apply (proj1 (unmatched_empty_iff_matches
                  sample_store sample_problem float_0_5 divide_and_conquer r
                  H1 H2 eq_refl)).
Defined.

(** X12: a stored pattern with preconditions whose solution [matches]
    the problem is reported with score exactly [1.0], as an exact match
    and with no unmatched precondition, at every threshold up to [1.0]. *)
Theorem match_exact self problem threshold p :
  p ∈ PatternStore.all_patterns self →
  Solution.preconditions (Pattern.solution p) ≠ [] →
  matches (Pattern.solution p) problem = true →
  PyFloat.ge float_1_0 threshold = true →
  ∃ r, r ∈ PatternStore.match_ self problem threshold
       ∧ MatchResult.pattern r = p
       ∧ MatchResult.score r = float_1_0
       ∧ is_exact r = true
       ∧ MatchResult.matched_features r
         = sorted (list_to_set (Solution.preconditions (Pattern.solution p)))
       ∧ MatchResult.unmatched_preconditions r = [].
Proof.
  intros Hp Hpre Hm Hth. unfold matches in Hm. apply bool_decide_eq_true in Hm.
  set (R := list_to_set (Solution.preconditions (Pattern.solution p)) : gset string) in *.
  assert (R ∩ problem_features problem = R) as Hcap by set_solver.
  assert (R ∖ problem_features problem = ∅) as Hdiff by set_solver.
  assert (size R ≠ 0) as Hsz.
  { rewrite size_empty_iff. intros HR%leibniz_equiv.
    by apply list_to_set_eq_empty in HR. }
  exists (MatchResult.mk p float_1_0 (sorted R) []). split; [|done].
  apply elem_of_match_. exists p. split; [done|].
  rewrite (match_pattern_preconditions _ _ _ Hpre). cbv zeta. fold R.
  rewrite Hcap, Hdiff, int_truediv_self by lia. rewrite Hth.
  by rewrite (proj2 (sorted_empty_iff ∅)).
Qed.

Lemma match_exact_witness :
  let p := sample_pattern "split" ["recursive_decomposability"] [] in
  let self := PatternStore.add p PatternStore.init in
  p ∈ PatternStore.all_patterns self
  ∧ Solution.preconditions (Pattern.solution p) ≠ []
  ∧ matches (Pattern.solution p) sample_problem = true
  ∧ PyFloat.ge float_1_0 float_0_6 = true
  ∧ ∃ r, r ∈ PatternStore.match_ self sample_problem float_0_6
         ∧ MatchResult.pattern r = p
         ∧ MatchResult.score r = float_1_0
         ∧ is_exact r = true
         ∧ MatchResult.matched_features r
           = sorted (list_to_set (Solution.preconditions (Pattern.solution p)))
         ∧ MatchResult.unmatched_preconditions r = [].
Proof.
  intros p self.
  assert (p ∈ PatternStore.all_patterns self) as H1 by apply list_elem_of_here.
  assert (Solution.preconditions (Pattern.solution p) ≠ []) as H2 by discriminate.
  assert (matches (Pattern.solution p) sample_problem = true) as H3
    by (vm_compute; reflexivity).
  assert (PyFloat.ge float_1_0 float_0_6 = true) as H4 by reflexivity.
  split; [exact H1|]. split; [exact H2|]. split; [exact H3|]. split; [exact H4|].
  apply (match_exact self sample_problem float_0_6 p H1 H2 H3 H4).
Defined.

Lemma SFltb_irrefl x : SFltb x x = false.
Proof.
  destruct (SFltb x x) eqn:H; [|done].
  apply SFltb_key in H as (_ & _ & H).
  destruct (float_key x) as [[??]?]. unfold lex_lt in H. lia.
Qed.

Lemma filter_insert_by_score (v : PyFloat.t) r l :
  filter (λ x, MatchResult.score x = v) (insert_by_score r l)
  = filter (λ x, MatchResult.score x = v) (r :: l).
Proof.
  induction l as [|r' l IH]; simpl; [done|].
  destruct (PyFloat.lt _ _) eqn:Hlt; [|done].
  rewrite (filter_cons _ r'), IH, !(filter_cons _ r), (filter_cons _ r').
  destruct (decide (MatchResult.score r = v)) as [Hr|]; [|done].
  destruct (decide (MatchResult.score r' = v)) as [Hr'|]; [|done].
  unfold PyFloat.lt in Hlt. rewrite Hr, Hr', SFltb_irrefl in Hlt. done.
Qed.

Lemma filter_sort_by_score_reverse (v : PyFloat.t) l :
  filter (λ x, MatchResult.score x = v) (sort_by_score_reverse l)
  = filter (λ x, MatchResult.score x = v) l.
Proof.
  induction l as [|r l IH]; simpl; [done|].
  by rewrite filter_insert_by_score, !filter_cons, IH.
Qed.

(** X13: ties keep the order of the store: for each score, the patterns
    reported with that score come in the order in which the store holds
    them. *)
Theorem match_ties_in_store_order self problem threshold (v : PyFloat.t) :
  MatchResult.pattern
    <$> filter (λ r, MatchResult.score r = v) (PatternStore.match_ self problem threshold)
  `sublist_of` PatternStore.all_patterns self.
Proof.
  unfold PatternStore.match_. rewrite filter_sort_by_score_reverse.
  etrans; [|apply omap_pattern_sublist]. apply fmap_sublist, sublist_filter.
Qed.

(** * Further properties of [load], [save] and decoding *)

(** X14: a [load] that succeeds is the sequence of [add]s of the decoded
    records, in the order of the document: it merges into the store by
    identifier, a record overwriting the pattern stored under its
    identifier. *)
Theorem load_success_is_adds data self self' :
  PatternStore.load data self = (self', None) →
  ∃ items ps,
    iterate data = inr items
    ∧ mapM _dict_to_pattern items = inr ps
    ∧ self' = add_all ps self
    ∧ ∀ p, p ∈ ps → is_Some (PatternStore.get (Pattern.id p) self').
Proof.
  unfold PatternStore.load. destruct (iterate data) as [e|items]; [done|].
  intros (ps & Hps & ->)%load_items_ok. exists items, ps.
  split; [done|]. split; [done|]. split; [done|].
  clear Hps. revert self. induction ps as [|q ps IH]; intros self p Hp.
  - by apply elem_of_nil in Hp.
  - simpl. destruct (decide (Pattern.id p ∈ Pattern.id <$> ps)) as [Hin|Hnin].
    + apply list_elem_of_fmap in Hin as (p' & Hid & Hp'). rewrite Hid. by apply IH.
    + rewrite get_add_all_other by done.
      apply elem_of_cons in Hp as [->|Hp].
      * unfold PatternStore.get, PatternStore.add.
        rewrite PyDict_get_setitem_eq. by eexists.
      * exfalso. apply Hnin, list_elem_of_fmap. by exists p.
Qed.

Lemma load_success_is_adds_witness :
  let data := PatternStore.save sample_store in
  PatternStore.load data PatternStore.init = (sample_store, None)
  ∧ ∃ items ps,
      iterate data = inr items
      ∧ mapM _dict_to_pattern items = inr ps
      ∧ sample_store = add_all ps PatternStore.init
      ∧ ∀ p, p ∈ ps → is_Some (PatternStore.get (Pattern.id p) sample_store).
Proof.
  intros data.
  assert (PatternStore.load data PatternStore.init = (sample_store, None)) as H
    by (vm_compute; reflexivity).
  split; [exact H|]. apply (load_success_is_adds data PatternStore.init _ H).
Defined.

Lemma _pattern_to_dict_erase_metadata p :
  _pattern_to_dict (erase_metadata p) = _pattern_to_dict p.
Proof. done. Qed.

(** X15: loading a saved store into any store never fails and adds the
    saved patterns in order, without their solution metadata; and what
    [save] writes is a fixed point: saving the reloaded store writes the
    same document again. *)
Theorem load_of_save other self :
  PatternStore.load (PatternStore.save other) self
  = (add_all (erase_metadata <$> PatternStore.all_patterns other) self, None)
  ∧ (PatternStore.wf other →
     PatternStore.save (PatternStore.load (PatternStore.save other) PatternStore.init).1
     = PatternStore.save other).
Proof.
  split.
  - unfold PatternStore.load, PatternStore.save. simpl. apply load_items_roundtrip.
  - intros Hwf. rewrite save_load_erases by done. simpl.
    unfold PatternStore.save, PatternStore.all_patterns, PyDict.values. f_equal.
    rewrite <- !list_fmap_compose. apply list_fmap_ext. by intros ? [k p].
Qed.

Lemma load_of_save_witness :
  PatternStore.wf sample_store
  ∧ PatternStore.save
      (PatternStore.load (PatternStore.save sample_store) PatternStore.init).1
    = PatternStore.save sample_store.
Proof.
  assert (PatternStore.wf sample_store) as H
    by (repeat apply PatternStore_wf_add; apply PatternStore_wf_init).
  split; [exact H|]. apply (proj2 (load_of_save sample_store PatternStore.init) H).
Defined.

(** A record that is no JSON object makes [_dict_to_pattern] raise
    [TypeError], and an object without the key [problem] makes it raise
    [KeyError] for that key, whatever else the object holds. *)
Theorem dict_to_pattern_malformed (d : json) :
  ((∀ kvs, d ≠ JObj kvs) → _dict_to_pattern d = inl TypeError)
  ∧ (∀ kvs, d = JObj kvs → PyDict.get "problem" kvs = None →
            _dict_to_pattern d = inl (KeyError "problem")).
Proof.
  split.
  - intros Hd. destruct d; try done. by destruct (Hd kvs).
  - intros kvs -> Hget. unfold _dict_to_pattern, subscript. by rewrite Hget.
Qed.

Lemma enum_of_value_unknown {E} (value : E → string) (members : list E) v :
  (∀ m, v ≠ JStr (value m)) → enum_of_value value members v = inl (ValueError v).
Proof.
  intros Hv. destruct v as [| | | |s| |]; try done. unfold enum_of_value.
  destruct (list_find _ members) as [[i m]|] eqn:Hfind; [|done].
  apply list_find_Some in Hfind as (_ & <- & _). by destruct (Hv m).
Qed.

(** X16: the four enumerations of the persisted format are decoded
    strictly: every member comes back from its exact lowercase value, and
    any other value, a string in another spelling or a value of another
    JSON type, raises [ValueError] instead of falling back to a default. *)
Theorem enum_decoding_strict :
  strict_enum ConstraintType.value ConstraintType.members
  ∧ strict_enum GoalType.value GoalType.members
  ∧ strict_enum Operation.value Operation.members
  ∧ strict_enum CompositionType.value CompositionType.members.
Proof.
  repeat split; try (intros v Hv; by apply enum_of_value_unknown);
    intros []; reflexivity.
Qed.

(** A sequence of two steps that returns has returned from the first. *)
Lemma result_bind_inr {A B} (x : result A) (f : A → result B) b :
  x ≫= f = inr b → ∃ a, x = inr a ∧ f a = inr b.
Proof. destruct x as [e|a]; [done|]. intros H. by exists a. Qed.

(** A record that is decoded brings every required key: each one is read
    by subscript on the way. *)
Lemma dict_to_pattern_reads d p path :
  _dict_to_pattern d = inr p → path ∈ required_keys →
  ∃ v, subscript_path d path = inr v.
Proof.
  unfold _dict_to_pattern. intros H Hpath.
  repeat match goal with
  | H : _ ≫= _ = inr _ |- _ => apply result_bind_inr in H as (? & ? & H); cbv zeta in H
  end.
  repeat match goal with
  | H : _ ≫= _ = inr _ |- _ => apply result_bind_inr in H as (? & ? & ?)
  end.
  repeat match goal with
  | H1 : ?a = inr ?x, H2 : ?a = inr ?y |- _ =>
      assert (y = x) as -> by congruence; clear H2
  end.
  unfold required_keys in Hpath.
  repeat (apply elem_of_cons in Hpath as [->|Hpath]);
    [..|by apply elem_of_nil in Hpath]; cbn [subscript_path];
    repeat (match goal with
            | H : subscript _ _ = inr _ |- _ => rewrite H
            end; cbn [mbind result_bind]); eauto.
Qed.

(** X17: of the keys of a persisted record, of its [problem] and
    [solution] and of their [structure] and [transformation], the ten of
    [required_keys] are required and the others are optional: a record
    from which one of the ten cannot be read is rejected with an
    exception, and a record that brings these ten only is decoded with no
    constraints, no goal, no tags, no preconditions, no postconditions, no
    instantiations, no related patterns and the [sequential]
    composition. *)
Theorem dict_to_pattern_defaults :
  (∀ d path err,
     path ∈ required_keys → subscript_path d path = inl err →
     ∃ err', _dict_to_pattern d = inl err')
  ∧ (∀ id name description pid pname sid sname es rs steps,
       _dict_to_pattern
         (JObj [("id", JStr id); ("name", JStr name); ("description", JStr description);
                ("problem",
                  JObj [("id", JStr pid); ("name", JStr pname);
                        ("structure",
                          JObj [("entities", JArr (entity_to_dict <$> es));
                                ("relations", JArr (relation_to_dict <$> rs))])]);
                ("solution",
                  JObj [("id", JStr sid); ("name", JStr sname);
                        ("transformation",
                          JObj [("steps", JArr (step_to_dict <$> steps))])])])
       = inr (Pattern.mk id name description
                (Problem.mk pid pname (Structure.mk es rs) [] None [])
                (Solution.mk sid sname []
                   (Transformation.mk steps CompositionType.SEQUENTIAL) [] [])
                [] [] [])).
Proof.
  split.
  - intros d path err Hpath Hread.
    destruct (_dict_to_pattern d) as [err'|p] eqn:Hd; [by exists err'|].
    destruct (dict_to_pattern_reads d p path Hd Hpath) as (v & Hv). congruence.
  - intros. unfold _dict_to_pattern. simpl.
    rewrite (comprehension_roundtrip _ _ es dict_to_entity_roundtrip).
    rewrite (comprehension_roundtrip _ _ rs dict_to_relation_roundtrip).
    rewrite (comprehension_roundtrip _ _ steps dict_to_step_roundtrip).
    reflexivity.
Qed.

Lemma dict_to_pattern_defaults_witness :
  let d :=
    JObj [("id", JStr "p"); ("name", JStr "P");
          ("problem",
            JObj [("id", JStr "q"); ("name", JStr "Q");
                  ("structure", JObj [("entities", JArr []); ("relations", JArr [])])]);
          ("solution",
            JObj [("id", JStr "s"); ("name", JStr "S");
                  ("transformation", JObj [("steps", JArr [])])])] in
  ["description"] ∈ required_keys
  ∧ subscript_path d ["description"] = inl (KeyError "description")
  ∧ ∃ err, _dict_to_pattern d = inl err.
Proof.
  intros d.
  assert (["description"] ∈ required_keys) as H1 by (repeat constructor).
  assert (subscript_path d ["description"] = inl (KeyError "description")) as H2
    by reflexivity.
  split; [exact H1|]. split; [exact H2|].
  apply (proj1 dict_to_pattern_defaults d _ _ H1 H2).
Defined.

(** * Further properties of the feature detector *)

Lemma has_feature_cases s feature :
  has_feature s feature
  = if decide (feature = "recursive_decomposability") then _check_recursive s
    else if decide (feature = "linear_chain") then _check_linear_chain s
    else if decide (feature = "tree") then _check_tree s
    else if decide (feature = "cycle") then _check_cycle s
    else if decide (feature = "bipartite") then _check_bipartite s
    else false.
Proof.
  unfold has_feature, has_feature_fuel, feature_checks, _check_cycle. simpl.
  repeat case_decide; done.
Qed.

Lemma has_cycle_from_entity_ext s s' :
  (∀ i, i ∈ Entity.id <$> Structure.entities s →
        i ∈ Entity.id <$> Structure.entities s') →
  (∀ x y, edge s x y → edge s' x y) →
  has_cycle_from_entity s → has_cycle_from_entity s'.
Proof.
  intros Hids Hedge (e & c & He & Hc & Hcyc).
  assert (Entity.id e ∈ Entity.id <$> Structure.entities s') as Hin
    by (apply Hids, list_elem_of_fmap; eauto).
  apply list_elem_of_fmap in Hin as (e' & Hid & He').
  exists e', c. split; [done|]. rewrite <- Hid. split.
  - eapply (rtc_congruence id); [|done]. intros ??. apply Hedge.
  - eapply (tc_congruence id); [|done]. intros ??. apply Hedge.
Qed.

Lemma _check_cycle_ext s s' :
  (∀ i, i ∈ Entity.id <$> Structure.entities s
        ↔ i ∈ Entity.id <$> Structure.entities s') →
  (∀ x y, edge s x y ↔ edge s' x y) →
  _check_cycle s' = _check_cycle s.
Proof.
  intros Hids Hedge.
  pose proof (_check_cycle_correct s) as H.
  pose proof (_check_cycle_correct s') as H'.
  assert (has_cycle_from_entity s ↔ has_cycle_from_entity s') as Hiff.
  { split; apply has_cycle_from_entity_ext; intros; try apply Hids; try apply Hedge; done. }
  destruct (_check_cycle s), (_check_cycle s'); intuition congruence.
Qed.

(** X18: the structural features do not depend on the order in which the
    entities and the relations of a structure are listed: [has_feature]
    answers the same for every feature name after any reordering of both
    lists. *)
Theorem features_order_independent es es' rs rs' feature :
  es ≡ₚ es' → rs ≡ₚ rs' →
  has_feature (Structure.mk es' rs') feature = has_feature (Structure.mk es rs) feature.
Proof.
  intros Hes Hrs. rewrite !has_feature_cases.
  assert (_check_recursive (Structure.mk es' rs') = _check_recursive (Structure.mk es rs)) as ->.
  { unfold _check_recursive. simpl. apply bool_decide_ext. by rewrite Hes. }
  assert (_check_linear_chain (Structure.mk es' rs') = _check_linear_chain (Structure.mk es rs)) as ->.
  { unfold _check_linear_chain. simpl. apply bool_decide_ext. by rewrite Hes, Hrs. }
  assert (_check_tree (Structure.mk es' rs') = _check_tree (Structure.mk es rs)) as ->.
  { unfold _check_tree. simpl. apply bool_decide_ext. by rewrite Hes, Hrs. }
  assert (_check_bipartite (Structure.mk es' rs') = _check_bipartite (Structure.mk es rs)) as ->.
  { unfold _check_bipartite, entity_types. simpl. apply bool_decide_ext. by rewrite Hes. }
  assert (_check_cycle (Structure.mk es' rs') = _check_cycle (Structure.mk es rs)) as ->.
  { apply _check_cycle_ext; simpl.
    - intros i. by rewrite Hes.
    - intros x y. unfold edge. simpl. by setoid_rewrite Hrs. }
  done.
Qed.

Lemma features_order_independent_witness :
  let es := [Entity.mk "a" "t" []; Entity.mk "b" "u" []] in
  let es' := [Entity.mk "b" "u" []; Entity.mk "a" "t" []] in
  let rs := [Relation.mk "a" "b" "contains" []] in
  es ≡ₚ es' ∧ rs ≡ₚ rs
  ∧ has_feature (Structure.mk es' rs) "tree" = has_feature (Structure.mk es rs) "tree".
Proof.
  intros es es' rs.
  assert (es ≡ₚ es') as H1 by apply Permutation_swap.
  assert (rs ≡ₚ rs) as H2 by reflexivity.
  split; [exact H1|]. split; [exact H2|].
  apply (features_order_independent es es' rs rs "tree" H1 H2).
Defined.

(** X19: a problem whose structure has no entity has no structural
    feature at all, whatever its relations: the edge counts are compared
    with [-1], and the cycle search has no node to start from. *)
Theorem no_entities_no_features (p : Problem.t) :
  Structure.entities (Problem.structure p) = [] → structural_features p = [].
Proof.
  intros Hes. unfold structural_features, feature_names.
  assert (∀ feat, has_feature (Problem.structure p) feat = false) as Hno.
  { intros feat. rewrite has_feature_cases.
    destruct (Problem.structure p) as [es rs]. simpl in Hes. subst es.
    assert (_check_cycle (Structure.mk [] rs) = false) as ->
      by (unfold _check_cycle, _check_cycle_fuel; simpl; by destruct rs).
    unfold _check_recursive, _check_linear_chain, _check_tree, _check_bipartite,
      entity_types. simpl.
    pose proof (size_empty (C:=gset string)) as Hempty.
    repeat case_decide; try done; apply bool_decide_eq_false; simpl; lia. }
  induction ["recursive_decomposability"; "linear_chain"; "tree"; "cycle"; "bipartite"]
    as [|f l IH]; [done|].
  rewrite filter_cons_False; [done|]. rewrite Hno. done.
Qed.

Lemma no_entities_no_features_witness :
  let p := Problem.mk "p" "P" (Structure.mk [] [Relation.mk "a" "a" "contains" []])
             [] None [] in
  Structure.entities (Problem.structure p) = [] ∧ structural_features p = [].
Proof.
  intros p. assert (Structure.entities (Problem.structure p) = []) as H by reflexivity.
  split; [exact H|]. apply (no_entities_no_features p H).
Defined.

Lemma length_size_list_to_set (l : list string) :
  length l = size (list_to_set l : gset string) ↔ NoDup l.
Proof.
  split; [|intros H; by rewrite size_list_to_set].
  induction l as [|x l IH]; [intros _; constructor|].
  change (list_to_set (x :: l) : gset string) with ({[x]} ∪ list_to_set l : gset string).
  pose proof (size_list_to_set_le l) as Hle. simpl.
  destruct (decide (x ∈ l)) as [Hin|Hnin].
  - replace ({[x]} ∪ list_to_set l : gset string) with (list_to_set l : gset string)
      by set_solver.
    lia.
  - rewrite size_union by set_solver. rewrite size_singleton. intros H.
    constructor; [done|]. apply IH. lia.
Qed.

Lemma not_NoDup_lookup (l : list string) :
  ¬ NoDup l ↔ ∃ i j x, i < j ∧ l !! i = Some x ∧ l !! j = Some x.
Proof.
  split.
  - induction l as [|x l IH]; intros Hnd; [destruct Hnd; constructor|].
    destruct (decide (x ∈ l)) as [Hin|Hnin].
    + apply list_elem_of_lookup in Hin as [j Hj]. exists 0, (S j), x.
      split; [lia|done].
    + destruct IH as (i & j & y & Hij & Hi & Hj).
      { intros Hl. apply Hnd. by constructor. }
      exists (S i), (S j), y. split; [lia|done].
  - intros (i & j & x & Hij & Hi & Hj) Hnd.
    pose proof (proj1 (NoDup_alt l) Hnd i j x Hi Hj). lia.
Qed.

(** X20: the feature [recursive_decomposability] holds exactly when two
    entities at different positions of the entity list have the same type
    label; relations play no part. *)
Theorem recursive_iff_shared_type s :
  has_feature s "recursive_decomposability" = true
  ↔ ∃ i j e1 e2,
      i < j
      ∧ Structure.entities s !! i = Some e1
      ∧ Structure.entities s !! j = Some e2
      ∧ Entity.type e1 = Entity.type e2.
Proof.
  rewrite has_feature_cases. simpl. unfold _check_recursive.
  rewrite bool_decide_eq_true, length_size_list_to_set, not_NoDup_lookup.
  split.
  - intros (i & j & t & Hij & Hi & Hj).
    apply list_lookup_fmap_Some in Hi as (e1 & -> & Hi).
    apply list_lookup_fmap_Some in Hj as (e2 & He & Hj).
    by exists i, j, e1, e2.
  - intros (i & j & e1 & e2 & Hij & Hi & Hj & He).
    exists i, j, (Entity.type e1). split; [done|]. split.
    + apply list_lookup_fmap_Some. eauto.
    + apply list_lookup_fmap_Some. eauto.
Qed.

Lemma size_2_iff (X : gset string) :
  size X = 2 ↔ ∃ a b, a ≠ b ∧ X = {[a; b]}.
Proof.
  split.
  - intros Hsz. unfold size, set_size in Hsz. simpl in Hsz.
    pose proof (NoDup_elements X) as Hnd.
    pose proof (list_to_set_elements_L X) as HX.
    destruct (elements X) as [|a [|b [|c l]]]; try done.
    exists a, b. apply NoDup_cons in Hnd as [Ha _]. split.
    + intros ->. apply Ha, list_elem_of_here.
    + rewrite <- HX. simpl. set_solver.
  - intros (a & b & Hab & ->). rewrite size_union by set_solver.
    by rewrite !size_singleton.
Qed.

(** X21: the feature [bipartite] holds exactly when the entities carry
    two different type labels and no third one; relations play no part. *)
Theorem bipartite_iff_two_types s :
  has_feature s "bipartite" = true
  ↔ ∃ t1 t2,
      t1 ≠ t2
      ∧ (∃ e, e ∈ Structure.entities s ∧ Entity.type e = t1)
      ∧ (∃ e, e ∈ Structure.entities s ∧ Entity.type e = t2)
      ∧ ∀ e, e ∈ Structure.entities s → Entity.type e = t1 ∨ Entity.type e = t2.
Proof.
  rewrite has_feature_cases. simpl. unfold _check_bipartite, entity_types.
  rewrite bool_decide_eq_true, size_2_iff.
  assert (∀ t, t ∈ (list_to_set (Entity.type <$> Structure.entities s) : gset string)
               ↔ ∃ e, e ∈ Structure.entities s ∧ Entity.type e = t) as Hin.
  { intros t. rewrite elem_of_list_to_set, list_elem_of_fmap. naive_solver. }
  split.
  - intros (a & b & Hab & HX). exists a, b. split; [done|].
    split; [apply Hin; rewrite HX; set_solver|].
    split; [apply Hin; rewrite HX; set_solver|].
    intros e He. assert (Entity.type e ∈ ({[a; b]} : gset string)) as Ht
      by (rewrite <- HX; apply Hin; eauto).
    set_solver.
  - intros (a & b & Hab & Ha & Hb & Hall). exists a, b. split; [done|].
    apply leibniz_equiv. intros t. rewrite Hin. split.
    + intros (e & He & <-). destruct (Hall e He) as [->| ->]; set_solver.
    + intros [->%elem_of_singleton| ->%elem_of_singleton]%elem_of_union; done.
Qed.

(** X22: [neighbors] lists [y] for [x] exactly when a relation of the
    requested type (any type when none is requested) joins the two, in
    either direction; being a neighbour is therefore symmetric. *)
Theorem neighbors_spec s x y (relation_type : option string) :
  (y ∈ neighbors s x relation_type
   ↔ ∃ r, r ∈ Structure.relations s
          ∧ (relation_type = None ∨ relation_type = Some (Relation.type r))
          ∧ ((Relation.source r = x ∧ Relation.target r = y)
             ∨ (Relation.target r = x ∧ Relation.source r = y)))
  ∧ (y ∈ neighbors s x relation_type ↔ x ∈ neighbors s y relation_type).
Proof.
  assert (∀ x y,
    y ∈ neighbors s x relation_type
    ↔ ∃ r, r ∈ Structure.relations s
           ∧ (relation_type = None ∨ relation_type = Some (Relation.type r))
           ∧ ((Relation.source r = x ∧ Relation.target r = y)
              ∨ (Relation.target r = x ∧ Relation.source r = y))) as Hspec.
  { clear x y. intros x y. unfold neighbors. rewrite list_elem_of_bind.
    split.
    - intros (r & Hy & Hr). exists r. split; [done|].
      apply elem_of_app in Hy.
      destruct relation_type as [t|]; simpl in Hy;
        repeat case_bool_decide; simpl in Hy;
        rewrite ?elem_of_nil, ?list_elem_of_singleton in Hy;
        naive_solver.
    - intros (r & Hr & Ht & Hxy). exists r. split; [|done].
      apply elem_of_app.
      destruct Ht as [-> | ->]; destruct Hxy as [[<- <-]|[<- <-]];
        [left|right|left|right];
        rewrite ?bool_decide_eq_true_2 by done; simpl; apply list_elem_of_here. }
  split; [apply Hspec|]. rewrite !Hspec. naive_solver.
Qed.

(** X23: [entity] returns an entity of the structure with the requested
    identifier, the first one in list order, and returns nothing exactly
    when no entity has that identifier. *)
Theorem entity_spec s entity_id :
  match entity s entity_id with
  | Some e =>
      ∃ i, Structure.entities s !! i = Some e
           ∧ Entity.id e = entity_id
           ∧ ∀ j e', Structure.entities s !! j = Some e' → j < i →
                     Entity.id e' ≠ entity_id
  | None => ∀ e, e ∈ Structure.entities s → Entity.id e ≠ entity_id
  end.
Proof.
  unfold entity.
  destruct (list_find _ (Structure.entities s)) as [[i e]|] eqn:Hfind; simpl.
  - apply list_find_Some in Hfind as (Hi & He & Hfirst). eauto.
  - apply list_find_None in Hfind. intros e He. by eapply Forall_forall in Hfind.
Qed.

(** * Further properties of domain mappings *)

Lemma invert_lookup_None d a :
  PyDict.get a (DomainMapping.invert d) = None ↔ a ∉ PyDict.values d.
Proof.
  unfold PyDict.values. induction d as [|[c' a'] d IH] using rev_ind.
  - split; [intros _; apply not_elem_of_nil|done].
  - rewrite invert_snoc, fmap_app, not_elem_of_app. simpl.
    rewrite list_elem_of_singleton. destruct (decide (a' = a)) as [->|Hne].
    + rewrite PyDict_get_setitem_eq. naive_solver.
    + rewrite PyDict_get_setitem_ne by done. rewrite IH. naive_solver.
Qed.

(** X24: the reverse dictionary resolves an abstract label shared by
    several concrete labels to the concrete label of the last such entry,
    and it has no entry for an abstract label that no entry maps to. *)
Theorem invert_last_write_wins d1 c a d2 :
  (a ∉ PyDict.values d2 →
   PyDict.get a (DomainMapping.invert (d1 ++ (c, a) :: d2)) = Some c)
  ∧ (PyDict.get a (DomainMapping.invert d1) = None ↔ a ∉ PyDict.values d1).
Proof.
  split; [|apply invert_lookup_None].
  unfold PyDict.values. induction d2 as [|[c' a'] d2 IH] using rev_ind.
  - intros _. by rewrite invert_snoc, PyDict_get_setitem_eq.
  - rewrite fmap_app, not_elem_of_app. simpl. rewrite list_elem_of_singleton.
    intros [Hd2 Hne]. rewrite app_comm_cons, app_assoc, invert_snoc.
    rewrite PyDict_get_setitem_ne by done. by apply IH.
Qed.

(** X25: [instantiate] turns every step into one concrete step, in
    order, carrying the abstract operation, the arguments, the binding,
    the rationale and the domain of the mapping; an operation that no
    entry of the operation dictionary maps to keeps its abstract label as
    its concrete one. *)
Theorem instantiate_spec solution mapping :
  length (instantiate solution mapping)
  = length (Transformation.steps (Solution.transformation solution))
  ∧ ∀ i step,
      Transformation.steps (Solution.transformation solution) !! i = Some step →
      ∃ cs,
        instantiate solution mapping !! i = Some cs
        ∧ PyDict.get "abstract_operation" cs
          = Some (JStr (Operation.value (Step.operation step)))
        ∧ PyDict.get "args" cs = Some (JObj (Step.args step))
        ∧ PyDict.get "binds" cs = Some (optional_str_to_json (Step.binds step))
        ∧ PyDict.get "rationale" cs = Some (JStr (Step.rationale step))
        ∧ PyDict.get "domain" cs = Some (JStr (DomainMapping.domain mapping))
        ∧ (Operation.value (Step.operation step)
             ∉ PyDict.values (DomainMapping.operation_map mapping) →
           PyDict.get "operation" cs
           = Some (JStr (Operation.value (Step.operation step)))).
Proof.
  unfold instantiate. split; [by rewrite length_fmap|].
  intros i step Hi. eexists. split; [by rewrite list_lookup_fmap, Hi|].
  repeat (split; [reflexivity|]).
  intros Hop%invert_lookup_None. unfold instantiate_step. simpl.
  unfold DomainMapping.inverse_operation_map. by rewrite Hop.
Qed.

Lemma abstract_entity_relabel type_map e :
  abstract_entity type_map e = relabel_entity type_map <$> abstract_entity [] e.
Proof.
  unfold abstract_entity.
  destruct (subscript e "type") as [|t]; [done|]. simpl.
  destruct (as_str "type" t) as [|ty]; [done|]. simpl.
  destruct (subscript e "id") as [|i]; [done|]. simpl.
  destruct (get_default e "properties" (JObj [])) as [|ps]; [done|]. simpl.
  destruct (as_str "id" i) as [|i']; [done|]. simpl.
  by destruct (as_dict "properties" ps).
Qed.

Lemma abstract_relation_relabel type_map r :
  abstract_relation type_map r = relabel_relation type_map <$> abstract_relation [] r.
Proof.
  unfold abstract_relation.
  destruct (subscript r "type") as [|t]; [done|]. simpl.
  destruct (as_str "type" t) as [|ty]; [done|]. simpl.
  destruct (subscript r "source") as [|src]; [done|]. simpl.
  destruct (subscript r "target") as [|tgt]; [done|]. simpl.
  destruct (get_default r "properties" (JObj [])) as [|ps]; [done|]. simpl.
  destruct (as_str "source" src) as [|src']; [done|]. simpl.
  destruct (as_str "target" tgt) as [|tgt']; [done|]. simpl.
  by destruct (as_dict "properties" ps).
Qed.

Lemma mapM_fmap {A} (f f' : json → result A) (g : A → A) (l : list json) :
  (∀ x, f' x = g <$> f x) → mapM f' l = fmap g <$> mapM f l.
Proof.
  intros H. induction l as [|x l IH]; [done|].
  change (mapM f' (x :: l)) with (y ← f' x; k ← mapM f' l; mret (y :: k)).
  change (mapM f (x :: l)) with (y ← f x; k ← mapM f l; mret (y :: k)).
  rewrite H, IH. destruct (f x) as [|y]; [done|]. simpl.
  by destruct (mapM f l).
Qed.

Lemma comprehension_fmap {A} (f f' : json → result A) (g : A → A) v :
  (∀ x, f' x = g <$> f x) → comprehension f' v = fmap g <$> comprehension f v.
Proof.
  intros H. unfold comprehension. destruct (iterate v) as [|items]; [done|]. simpl.
  by apply mapM_fmap.
Qed.

Lemma relabel_problem_cycle type_map p :
  has_feature (Problem.structure (relabel_problem type_map p)) "cycle"
  = has_feature (Problem.structure p) "cycle".
Proof.
  rewrite !has_feature_cycle. apply _check_cycle_ext; simpl.
  - intros i. rewrite <- list_fmap_compose.
    rewrite !list_elem_of_fmap. naive_solver.
  - intros x y. unfold edge. simpl. split.
    + intros (r & Hr & ? & ?). exists (relabel_relation type_map r).
      split; [|done]. apply list_elem_of_fmap. eauto.
    + intros (r' & (r & -> & Hr)%list_elem_of_fmap & ? & ?). by exists r.
Qed.

(** X26: [abstract] uses the mapping for the type labels only: it is the
    abstraction under the mapping that maps nothing, followed by the
    lookup of every entity type and relation type in [type_map] with the
    label itself as fallback.  Whether it fails, and with which error,
    does not depend on the mapping; identifiers, relation endpoints,
    properties, constraints, goal and tags are never changed, so that two
    mappings give problems that agree on the [cycle] feature. *)
Theorem abstract_factors problem_desc mapping :
  abstract problem_desc mapping
  = relabel_problem (DomainMapping.type_map mapping)
      <$> abstract problem_desc identity_mapping
  ∧ ∀ mapping' p p',
      abstract problem_desc mapping = inr p →
      abstract problem_desc mapping' = inr p' →
      has_feature (Problem.structure p) "cycle"
      = has_feature (Problem.structure p') "cycle".
Proof.
  assert (∀ mapping,
    abstract problem_desc mapping
    = relabel_problem (DomainMapping.type_map mapping)
        <$> abstract problem_desc identity_mapping) as Hfactor.
  { clear mapping. intros mapping.
    unfold abstract. simpl.
    destruct (get_default problem_desc "entities" (JArr [])) as [|es]; [done|]. simpl.
    rewrite (comprehension_fmap _ _ _ es (abstract_entity_relabel _)).
    destruct (comprehension (abstract_entity []) es) as [|entities]; [done|]. simpl.
    destruct (get_default problem_desc "relations" (JArr [])) as [|rs]; [done|]. simpl.
    rewrite (comprehension_fmap _ _ _ rs (abstract_relation_relabel _)).
    destruct (comprehension (abstract_relation []) rs) as [|relations]; [done|]. simpl.
    destruct (get_default problem_desc "constraints" (JArr []) ≫= _) as [|cs]; [done|].
    simpl.
    destruct (if has_key problem_desc "goal" then _ else _) as [|goal]; [done|]. simpl.
    destruct (get_default problem_desc "id" (JStr "")) as [|i]; [done|]. simpl.
    destruct (get_default problem_desc "name" (JStr "")) as [|n]; [done|]. simpl.
    destruct (get_default problem_desc "tags" (JArr [])) as [|ts]; [done|]. simpl.
    destruct (as_str "id" i) as [|i']; [done|]. simpl.
    destruct (as_str "name" n) as [|n']; [done|]. simpl.
    by destruct (as_str_list "tags" ts). }
  split; [apply Hfactor|]. intros mapping' p p'.
  rewrite (Hfactor mapping), (Hfactor mapping').
  destruct (abstract problem_desc identity_mapping) as [|p0]; [done|]. simpl.
  intros [= <-] [= <-]. by rewrite !relabel_problem_cycle.
Qed.

Lemma abstract_factors_witness :
  ∃ p1 p2,
    abstract sample_description sorting_mapping = inr p1
    ∧ abstract sample_description identity_mapping = inr p2
    ∧ Entity.type <$> Structure.entities (Problem.structure p1) = ["collection"; "item"]
    ∧ has_feature (Problem.structure p1) "cycle"
      = has_feature (Problem.structure p2) "cycle".
Proof.
  eexists _, _.
  assert (abstract sample_description sorting_mapping = inr _) as H1
    by (vm_compute; reflexivity).
  assert (abstract sample_description identity_mapping = inr _) as H2
    by (vm_compute; reflexivity).
  split; [exact H1|]. split; [exact H2|]. split; [reflexivity|].
  apply (proj2 (abstract_factors sample_description sorting_mapping) _ _ _ H1 H2).
Defined.
